(** * Valuation core of the Statbotics FRC betting prototype

    A shallow embedding of the three pure functions of
    [statbotics_frc_betting_app.js]: [computeTeamValue],
    [computeAllianceValue] and [suggestOverUnder], with the helper
    [getRankMultiplier] and the configuration constants.

    Numbers.  A JavaScript number is modelled by the type [number]: a
    rational, or one of the three special values [+Infinity], [-Infinity]
    and [NaN].  The arithmetic on the special values is the IEEE-754 one
    that JavaScript uses (a non-zero number over zero is an infinity,
    [Infinity - Infinity] and [0 * Infinity] are [NaN], [NaN] is absorbing).
    On rationals every operation returns the exact result: the binary64
    rounding step, and with it overflow, is abstracted away, and a decimal
    literal such as [1.01] denotes the rational 101/100.  Zero is unsigned
    and stands for [+0]; the only division of the program whose divisor can
    vanish is [1 / (win_prob + EPS)], and an IEEE sum is [-0] only when
    both summands are, which [EPS > 0] excludes.

    A field that is absent from a JavaScript object reads as [undefined];
    every arithmetic use converts it to [NaN] and [||] treats it as falsy,
    as it does [NaN], so an absent numeric field is modelled by [NaN].

    Magnitudes.  A statement about [suggestOverUnder] that depends on the
    binary64 range carries the range as a hypothesis ([MAX_VALUE],
    [EPA_BOUND]), and the module [Float64] transcribes the function on the
    binary64 numbers themselves, for the inputs beyond that range. *)

From Stdlib Require Import QArith Qround Qabs Qminmax Lqa ZArith List Lia String.
From Stdlib Require Import DecimalString.
From Stdlib Require Import Setoid Morphisms.
From Stdlib Require PrimFloat FloatOps SpecFloat Uint63 FinFun.
Import ListNotations.

Local Open Scope Q_scope.

(** ** JavaScript numbers *)

Inductive number : Type :=
| Fin (q : Q)
| PInf
| NInf
| NaN.

Coercion Fin : Q >-> number.

Module Num.

Definition neg (x : number) : number :=
  match x with
  | Fin a => Fin (- a)
  | PInf => NInf
  | NInf => PInf
  | NaN => NaN
  end.

(** [x + y] *)
Definition add (x y : number) : number :=
  match x, y with
  | NaN, _ | _, NaN => NaN
  | Fin a, Fin b => Fin (a + b)
  | PInf, NInf | NInf, PInf => NaN
  | PInf, _ | _, PInf => PInf
  | NInf, _ | _, NInf => NInf
  end.

(** [x - y] *)
Definition sub (x y : number) : number := add x (neg y).

(** The infinity with the sign of [c], [NaN] for a zero sign. *)
Definition signed_inf (c : comparison) : number :=
  match c with
  | Gt => PInf
  | Lt => NInf
  | Eq => NaN
  end.

(** [x * y] *)
Definition mul (x y : number) : number :=
  match x, y with
  | NaN, _ | _, NaN => NaN
  | Fin a, Fin b => Fin (a * b)
  | PInf, Fin b | Fin b, PInf => signed_inf (b ?= 0)
  | NInf, Fin b | Fin b, NInf => signed_inf (0 ?= b)
  | PInf, PInf | NInf, NInf => PInf
  | PInf, NInf | NInf, PInf => NInf
  end.

(** [x / y]; a zero divisor is [+0]. *)
Definition div (x y : number) : number :=
  match x, y with
  | NaN, _ | _, NaN => NaN
  | Fin a, Fin b =>
      if Qeq_bool b 0 then signed_inf (a ?= 0) else Fin (a / b)
  | Fin _, (PInf | NInf) => Fin 0
  | PInf, Fin b => if Qle_bool 0 b then PInf else NInf
  | NInf, Fin b => if Qle_bool 0 b then NInf else PInf
  | (PInf | NInf), (PInf | NInf) => NaN
  end.

(** [Math.max(x, y)]: [NaN] as soon as one argument is. *)
Definition Math_max (x y : number) : number :=
  match x, y with
  | NaN, _ | _, NaN => NaN
  | PInf, _ | _, PInf => PInf
  | NInf, z | z, NInf => z
  | Fin a, Fin b => Fin (Qmax a b)
  end.

(** The integer nearest to a rational, a tie going up. *)
Definition round (a : Q) : Z := Qfloor (a + (1 # 2)).

(** [Math.round(x)] *)
Definition Math_round (x : number) : number :=
  match x with
  | Fin a => Fin (inject_Z (round a))
  | _ => x
  end.

(** [Math.floor(x)] *)
Definition Math_floor (x : number) : number :=
  match x with
  | Fin a => Fin (inject_Z (Qfloor a))
  | _ => x
  end.

(** Falsy numbers are [0] and [NaN]. *)
Definition falsy (x : number) : bool :=
  match x with
  | Fin a => Qeq_bool a 0
  | NaN => true
  | _ => false
  end.

(** [x || y] on numbers. *)
Definition or_else (x y : number) : number :=
  if falsy x then y else x.

(** [x <= y], false as soon as one side is [NaN]. *)
Definition le (x y : number) : Prop :=
  match x, y with
  | NaN, _ | _, NaN => False
  | NInf, _ | _, PInf => True
  | Fin a, Fin b => a <= b
  | _, _ => False
  end.

(** [x < y], false as soon as one side is [NaN]. *)
Definition lt (x y : number) : Prop :=
  match x, y with
  | NaN, _ | _, NaN => False
  | Fin a, Fin b => a < b
  | NInf, NInf | PInf, PInf => False
  | NInf, _ | _, PInf => True
  | _, _ => False
  end.

(** The same number: equal rationals, or the same special value. *)
Definition same (x y : number) : Prop :=
  match x, y with
  | Fin a, Fin b => a == b
  | PInf, PInf | NInf, NInf | NaN, NaN => True
  | _, _ => False
  end.

(** Neither [NaN] nor an infinity: what [Number.isFinite] tests. *)
Definition isFinite (x : number) : bool :=
  match x with
  | Fin _ => true
  | _ => false
  end.

End Num.

Declare Scope js_scope.
Delimit Scope js_scope with js.
Bind Scope js_scope with number.
Infix "+" := Num.add : js_scope.
Infix "-" := Num.sub : js_scope.
Infix "*" := Num.mul : js_scope.
Infix "/" := Num.div : js_scope.
Infix "||" := Num.or_else : js_scope.
Infix "<=" := Num.le : js_scope.
Infix "<" := Num.lt : js_scope.
Infix "=~" := Num.same (at level 70, no associativity) : js_scope.

(** ** Configuration *)

(** The object [RANK_MULTIPLIERS], keyed by the integers 1 to 8. *)
Definition RANK_MULTIPLIERS : list (Z * Q) :=
  [ (1%Z, 1.10); (2%Z, 1.08); (3%Z, 1.06); (4%Z, 1.04);
    (5%Z, 1.02); (6%Z, 1.01); (7%Z, 1.005); (8%Z, 1.001) ].

Definition EPS : Q := 0.001.
Definition SCALE_EPA : Q := 10.0.
Definition MIN_TEAM_VALUE : Q := 1.0.

(** ** Core algorithm *)

(** [RANK_MULTIPLIERS[rank]]: the property whose key is the decimal
    writing of [rank]; only an integer-valued number can name one of the
    keys 1 to 8, and every other number (and [undefined]) finds nothing. *)
Definition rank_property (rank : number) : option Q :=
  match rank with
  | Fin q =>
      option_map snd
        (find (fun kv => Qeq_bool (inject_Z (fst kv)) q) RANK_MULTIPLIERS)
  | _ => None
  end.

Definition getRankMultiplier (rank : number) : number :=
  match rank_property rank with
  | Some m => (Fin m || Fin 1.0)%js
  | None => Fin 1.0
  end.

Record TeamObj : Type := mkTeamObj {
  team_key : string;
  rank : number;
  epa : number;
  win_prob : number
}.

Record Components : Type := mkComponents {
  epaFactor : number;
  rankMul : number;
  winFactor : number
}.

Record TeamValue : Type := mkTeamValue {
  rawValue : number;
  value : number;
  components : Components
}.

Definition computeTeamValue (t : TeamObj) : TeamValue :=
  let epaFactor := Num.Math_max (Fin 0.01) (epa t / Fin SCALE_EPA)%js in
  let rankMul := getRankMultiplier (rank t) in
  let winFactor := (Fin 1 / (win_prob t + Fin EPS))%js in
  let rawValue := (epaFactor * rankMul * winFactor)%js in
  let value := Num.Math_max (Fin MIN_TEAM_VALUE) rawValue in
  {| rawValue := rawValue;
     value := value;
     components := {| epaFactor := epaFactor;
                      rankMul := rankMul;
                      winFactor := winFactor |} |}.

(** An element of [teams]: the team object spread, with its [computed]
    valuation added. *)
Record ScoredTeam : Type := mkScoredTeam {
  team : TeamObj;
  computed : TeamValue
}.

Record Alliance : Type := mkAlliance {
  teams : list ScoredTeam;
  allianceValue : number;
  allianceEPA : number
}.

Definition computeAllianceValue (teamObjs : list TeamObj) : Alliance :=
  let teams :=
    map (fun t => {| team := t; computed := computeTeamValue t |}) teamObjs in
  let allianceValue :=
    fold_left (fun s t => (s + value (computed t))%js) teams (Fin 0) in
  let allianceEPA :=
    fold_left (fun s t => (s + (epa (team t) || Fin 0))%js) teams (Fin 0) in
  {| teams := teams;
     allianceValue := allianceValue;
     allianceEPA := allianceEPA |}.

(** One side of [perAlliance]. *)
Module Side.
Record t : Type := mk {
  line : number;
  allianceValue : number;
  payoutMultiplier : number
}.
End Side.

Module PerAlliance.
Record t : Type := mk {
  red : Side.t;
  blue : Side.t
}.
End PerAlliance.

Module Suggestion.
Record t : Type := mk {
  baseLine : number;
  matchLine : number;
  perAlliance : PerAlliance.t
}.
End Suggestion.

(** The body of [suggestOverUnder]: each [const] of the function is a
    definition of the same name over the two arguments. *)
Section suggestOverUnder_body.

Variables redAlliance blueAlliance : Alliance.

Definition baseLine : number :=
  (Num.Math_round
     (((allianceEPA redAlliance + allianceEPA blueAlliance) / Fin 2)
      * Fin 10) / Fin 10)%js.

Definition totalValue : number :=
  (allianceValue redAlliance + allianceValue blueAlliance)%js.

Definition redShare : number :=
  (allianceValue redAlliance / (totalValue || Fin 1))%js.

Definition blueShare : number :=
  (allianceValue blueAlliance / (totalValue || Fin 1))%js.

Definition redDelta : number :=
  ((redShare - Fin 0.5) * Fin 0.2 * baseLine)%js.

Definition blueDelta : number :=
  ((blueShare - Fin 0.5) * Fin 0.2 * baseLine)%js.

Definition redLine : number :=
  (Num.Math_round ((baseLine + redDelta) * Fin 10) / Fin 10)%js.

Definition blueLine : number :=
  (Num.Math_round ((baseLine + blueDelta) * Fin 10) / Fin 10)%js.

Definition matchLine : number :=
  (Num.Math_round (((redLine + blueLine) / Fin 2) * Fin 10) / Fin 10)%js.

Definition avgValue : number :=
  ((allianceValue redAlliance + allianceValue blueAlliance) / Fin 2
   || Fin 1)%js.

Definition redPayout : number :=
  Num.Math_max (Fin 1.01)
    (Fin 1 + (Fin 1 - allianceValue redAlliance / avgValue) * Fin 0.5)%js.

Definition bluePayout : number :=
  Num.Math_max (Fin 1.01)
    (Fin 1 + (Fin 1 - allianceValue blueAlliance / avgValue) * Fin 0.5)%js.

Definition suggestOverUnder : Suggestion.t :=
  {| Suggestion.baseLine := baseLine;
     Suggestion.matchLine := matchLine;
     Suggestion.perAlliance :=
       {| PerAlliance.red :=
            {| Side.line := redLine;
               Side.allianceValue := allianceValue redAlliance;
               Side.payoutMultiplier :=
                 (Num.Math_round (redPayout * Fin 100) / Fin 100)%js |};
          PerAlliance.blue :=
            {| Side.line := blueLine;
               Side.allianceValue := allianceValue blueAlliance;
               Side.payoutMultiplier :=
                 (Num.Math_round (bluePayout * Fin 100) / Fin 100)%js |}
       |} |}.

End suggestOverUnder_body.

(** The example request at the end of the source file. *)
Definition example_red : list TeamObj :=
  [ mkTeamObj "frc254" (Fin 1) (Fin 38.5) (Fin 0.78);
    mkTeamObj "frc1678" (Fin 3) (Fin 28.4) (Fin 0.62);
    mkTeamObj "frc971" (Fin 5) (Fin 15.2) (Fin 0.43) ].

Definition example_blue : list TeamObj :=
  [ mkTeamObj "frc1114" (Fin 2) (Fin 34.1) (Fin 0.73);
    mkTeamObj "frc2056" (Fin 4) (Fin 26.0) (Fin 0.59);
    mkTeamObj "frc148" (Fin 6) (Fin 14.9) (Fin 0.41) ].

(** ** The suggestion on binary64 numbers

    [suggestOverUnder] once more, on the binary64 numbers that JavaScript
    computes with: every [+], [-], [*] and [/] is the correctly rounded
    IEEE-754 operation and every literal the nearest binary64 number.  It
    evaluates the function on inputs whose magnitude leaves the range in
    which exact arithmetic follows the program. *)

Module Float64.
Import PrimFloat.
Local Open Scope float_scope.
#[local] Set Warnings "-inexact-float".

Definition is_neg_zero (x : float) : bool := eqb x 0 && ltb (1 / x) 0.

(** [Math.max(a, b)]: [NaN] as soon as one argument is, and [+0] above
    [-0]. *)
Definition Math_max (a b : float) : float :=
  if is_nan a || is_nan b then nan
  else if ltb a b then b
  else if ltb b a then a
  else if is_neg_zero a then b else a.

(** [Math.round(x)]: the integer [floor(x + 0.5)], computed without
    rounding error, with the sign of [x] when it is zero; integers, the
    infinities and [NaN] are returned as they are.  A finite [x] is
    [(-1)^s * m * 2^e]; it is an integer when [0 <= e], and below [2^53]
    in absolute value otherwise. *)
Definition Math_round (x : float) : float :=
  match FloatOps.Prim2SF x with
  | SpecFloat.S754_finite s m e =>
      if (0 <=? e)%Z then x
      else
        let n := ((2 * (if s then Z.neg m else Z.pos m) + 2 ^ (- e))
                  / 2 ^ (1 - e))%Z in
        if (n =? 0)%Z then (if s then (-0) else 0)
        else if (n <? 0)%Z then - of_uint63 (Uint63.of_Z (- n))
        else of_uint63 (Uint63.of_Z n)
  | _ => x
  end.

(** [x || d]: [NaN] and both zeros are falsy. *)
Definition or_else (x d : float) : float :=
  if is_nan x || eqb x 0 then d else x.

(** The two properties of an alliance that [suggestOverUnder] reads. *)
Record Alliance : Type := mkAlliance {
  allianceValue : float;
  allianceEPA : float
}.

Section suggestOverUnder_body.

Variables redAlliance blueAlliance : Alliance.

Definition baseLine : float :=
  Math_round
    (((allianceEPA redAlliance + allianceEPA blueAlliance) / 2) * 10) / 10.

Definition totalValue : float :=
  allianceValue redAlliance + allianceValue blueAlliance.

Definition redShare : float :=
  allianceValue redAlliance / (or_else totalValue 1).

Definition blueShare : float :=
  allianceValue blueAlliance / (or_else totalValue 1).

Definition redDelta : float := (redShare - 0.5) * 0.2 * baseLine.

Definition blueDelta : float := (blueShare - 0.5) * 0.2 * baseLine.

Definition redLine : float := Math_round ((baseLine + redDelta) * 10) / 10.

Definition blueLine : float := Math_round ((baseLine + blueDelta) * 10) / 10.

Definition matchLine : float :=
  Math_round (((redLine + blueLine) / 2) * 10) / 10.

Definition avgValue : float :=
  or_else ((allianceValue redAlliance + allianceValue blueAlliance) / 2) 1.

Definition redPayout : float :=
  Math_max 1.01 (1 + (1 - (allianceValue redAlliance / avgValue)) * 0.5).

Definition bluePayout : float :=
  Math_max 1.01 (1 + (1 - (allianceValue blueAlliance / avgValue)) * 0.5).

(** The [payoutMultiplier] of each side. *)
Definition redPayoutMultiplier : float := Math_round (redPayout * 100) / 100.

Definition bluePayoutMultiplier : float :=
  Math_round (bluePayout * 100) / 100.

End suggestOverUnder_body.

End Float64.

(** ** Vocabulary of the statements *)

(** The largest finite binary64 number, [Number.MAX_VALUE]: a sum of two
    numbers that does not exceed it does not overflow. *)
Definition MAX_VALUE : Q := inject_Z ((2 ^ 53 - 1) * 2 ^ 971)%Z.

(** A bound, [2^1000], on the sum of the two EPA totals: below it
    [baseLine], the deltas and the lines are far from overflowing. *)
Definition EPA_BOUND : Q := inject_Z (2 ^ 1000)%Z.

(** Every field of a team value is a finite number. *)
Definition all_finite (v : TeamValue) : bool :=
  Num.isFinite (rawValue v) && Num.isFinite (value v)
  && Num.isFinite (epaFactor (components v))
  && Num.isFinite (rankMul (components v))
  && Num.isFinite (winFactor (components v)).

(** Two sides carrying the same numbers, field by field. *)
Definition side_same (x y : Side.t) : Prop :=
  (Side.line x =~ Side.line y)%js
  /\ (Side.allianceValue x =~ Side.allianceValue y)%js
  /\ (Side.payoutMultiplier x =~ Side.payoutMultiplier y)%js.

(** The rational that [t || 1] evaluates to. *)
Definition nz (t : Q) : Q := if Qeq_bool t 0 then 1 else t.

(** A team whose [epa] and [win_prob] are numbers, [win_prob] away from
    the pole [- EPS]. *)
Definition numeric_team (t : TeamObj) : Prop :=
  match epa t, win_prob t with
  | Fin _, Fin p => ~ p == - EPS
  | _, _ => False
  end.

(** A team whose [epa] is a number of at most a million in absolute value
    and whose [win_prob] is a number that is not negative. *)
Definition ordinary_team (t : TeamObj) : Prop :=
  match epa t, win_prob t with
  | Fin e, Fin p => Qabs e <= 1000000 /\ 0 <= p
  | _, _ => False
  end.

(** ** The request layer

    The handlers are functions from the request body (and, for the bet
    store, the current array [bets]) to the response they send (and the new
    array).  A body is what [bodyParser.json()] produces; the parts of it
    that a handler only tests for truthiness or stores are JavaScript
    values [jsval]. *)

Inductive jsval : Type :=
| JUndefined
| JNull
| JBool (b : bool)
| JNum (n : number)
| JStr (s : string)
| JObject (json : string).

(** The truthiness that [!v] negates; objects and arrays, kept here as
    their JSON text, are always truthy. *)
Definition truthy (v : jsval) : bool :=
  match v with
  | JUndefined | JNull => false
  | JBool b => b
  | JNum n => negb (Num.falsy n)
  | JStr s => negb (String.eqb s "")
  | JObject _ => true
  end.

(** The decimal writing of an integer, as a template string prints it. *)
Definition decimal (z : Z) : string := NilZero.string_of_int (Z.to_int z).

(** What [alliances.red] or [alliances.blue] can be: a falsy value (absent,
    [null], [0], the empty string, [false]), a truthy value that is not an
    array, or an array.  An entry of the array is [null] ([None]) or reads
    as a team object, the fields it lacks being [NaN]. *)
Inductive AlliancesField : Type :=
| Falsy
| NotArray
| TeamArray (l : list (option TeamObj)).

Module Alliances.
Record t : Type := mk {
  red : AlliancesField;
  blue : AlliancesField
}.
End Alliances.

(** The body of [POST /predict]; [alliances] is [None] when it is falsy or
    has no properties (a number, a string). *)
Module PredictBody.
Record t : Type := mk {
  match_id : jsval;
  alliances : option Alliances.t
}.
End PredictBody.

Module PredictOk.
Record t : Type := mk {
  match_id : jsval;
  red : Alliance;
  blue : Alliance;
  suggestion : Suggestion.t
}.
End PredictOk.

(** The three answers of [POST /predict]: status 400 with its error
    message, status 500 from the [catch], or the JSON body with status
    200. *)
Inductive PredictResponse : Type :=
| Predict400 (error : string)
| Predict500
| Predict200 (body : PredictOk.t).

(** The teams of an array, or [None] when an entry is [null]: the
    destructuring parameter of [computeTeamValue] then throws a
    [TypeError]. *)
Fixpoint team_entries (l : list (option TeamObj)) : option (list TeamObj) :=
  match l with
  | [] => Some []
  | None :: _ => None
  | Some t :: l' =>
      match team_entries l' with
      | Some ts => Some (t :: ts)
      | None => None
      end
  end.

(** [computeAllianceValue] on a field that passed the truthiness test:
    [None] when it throws, on a value without [map] or on a [null]
    entry. *)
Definition computeAllianceValue_field (f : AlliancesField) : option Alliance :=
  match f with
  | TeamArray l => option_map computeAllianceValue (team_entries l)
  | _ => None
  end.

Definition post_predict (body : PredictBody.t) : PredictResponse :=
  match PredictBody.alliances body with
  | None => Predict400 "alliances.red and alliances.blue required"
  | Some alliances =>
      match Alliances.red alliances, Alliances.blue alliances with
      | Falsy, _ | _, Falsy =>
          Predict400 "alliances.red and alliances.blue required"
      | fr, fb =>
          match computeAllianceValue_field fr with
          | None => Predict500
          | Some red =>
              match computeAllianceValue_field fb with
              | None => Predict500
              | Some blue =>
                  let suggestion := suggestOverUnder red blue in
                  Predict200
                    {| PredictOk.match_id := PredictBody.match_id body;
                       PredictOk.red := red;
                       PredictOk.blue := blue;
                       PredictOk.suggestion := suggestion |}
              end
          end
      end
  end.

(** A stored bet. *)
Module Bet.
Record t : Type := mk {
  id : Z;
  user : jsval;
  match_id : jsval;
  alliance : jsval;
  amount : jsval;
  type : jsval;
  line : jsval;
  time : string
}.
End Bet.

(** The body of [POST /bet]; an absent property is [JUndefined]. *)
Module BetBody.
Record t : Type := mk {
  user : jsval;
  match_id : jsval;
  alliance : jsval;
  amount : jsval;
  type : jsval;
  line : jsval
}.
End BetBody.

Inductive BetResponse : Type :=
| Bet400 (error : string)
| BetOk (bet : Bet.t).

(** [POST /bet]: [now] is the string that [new Date().toISOString()]
    returns; the result is the response and the array [bets] after the
    call. *)
Definition post_bet (now : string) (body : BetBody.t) (bets : list Bet.t)
  : BetResponse * list Bet.t :=
  if negb (truthy (BetBody.user body))
     || negb (truthy (BetBody.match_id body))
     || negb (truthy (BetBody.alliance body))
     || negb (truthy (BetBody.amount body))
     || negb (truthy (BetBody.type body))
  then (Bet400 "missing fields", bets)
  else
    let id := (Z.of_nat (List.length bets) + 1)%Z in
    let bet := {| Bet.id := id;
                  Bet.user := BetBody.user body;
                  Bet.match_id := BetBody.match_id body;
                  Bet.alliance := BetBody.alliance body;
                  Bet.amount := BetBody.amount body;
                  Bet.type := BetBody.type body;
                  Bet.line := BetBody.line body;
                  Bet.time := now |} in
    (BetOk bet, (bets ++ [bet])%list).

(** [GET /bets]: the count and the array. *)
Definition get_bets (bets : list Bet.t) : Z * list Bet.t :=
  (Z.of_nat (List.length bets), bets).

(** The arrays [bets] that the server can hold: empty at start, then
    changed by [POST /bet] only. *)
Inductive reachable : list Bet.t -> Prop :=
| reachable_start : reachable []
| reachable_post (now : string) (body : BetBody.t) (bets : list Bet.t) :
    reachable bets -> reachable (snd (post_bet now body bets)).

(** [randTeam(idx)] of [POST /simulate]; [u1], [u2], [u3] are the values of
    its three calls of [Math.random()], in order. *)
Definition randTeam (idx : Z) (u1 u2 u3 : number) : TeamObj :=
  let rank := (Num.Math_floor (u1 * Fin 8) + Fin 1)%js in
  let epa :=
    (Num.Math_round ((u2 * Fin 60 - Fin 10) * Fin 10) / Fin 10)%js in
  let win_prob := (Num.Math_round (u3 * Fin 100) / Fin 100)%js in
  {| team_key := String.append "frc" (decimal (1000 + idx));
     rank := rank;
     epa := epa;
     win_prob := win_prob |}.

Module SimResult.
Record t : Type := mk {
  match_ : string;
  red : Alliance;
  blue : Alliance;
  suggestion : Suggestion.t
}.
End SimResult.

(** The [j]-th team built in iteration [i] of the loop: every iteration
    calls [Math.random()] eighteen times, three per team, and [random k]
    is the value of the call number [k] of the request. *)
Definition sim_team (random : nat -> Q) (i j : nat) (idx : Z) : TeamObj :=
  randTeam idx (Fin (random (18 * i + 3 * j)%nat))
               (Fin (random (18 * i + 3 * j + 1)%nat))
               (Fin (random (18 * i + 3 * j + 2)%nat)).

Definition sim_redTeams (random : nat -> Q) (i : nat) : list TeamObj :=
  [ sim_team random i 0 (Z.of_nat i * 3);
    sim_team random i 1 (Z.of_nat i * 3 + 1);
    sim_team random i 2 (Z.of_nat i * 3 + 2) ].

Definition sim_blueTeams (random : nat -> Q) (i : nat) : list TeamObj :=
  [ sim_team random i 3 (Z.of_nat i * 3 + 3);
    sim_team random i 4 (Z.of_nat i * 3 + 4);
    sim_team random i 5 (Z.of_nat i * 3 + 5) ].

(** The body of the loop for the index [i]. *)
Definition sim_iteration (random : nat -> Q) (i : nat) : SimResult.t :=
  let redTeams := sim_redTeams random i in
  let blueTeams := sim_blueTeams random i in
  let red := computeAllianceValue redTeams in
  let blue := computeAllianceValue blueTeams in
  let suggestion := suggestOverUnder red blue in
  {| SimResult.match_ := String.append "sim" (decimal (Z.of_nat i + 1));
     SimResult.red := red;
     SimResult.blue := blue;
     SimResult.suggestion := suggestion |}.

(** [parseInt(req.body.n || 10)] for a body whose [n] is absent ([None])
    or is an integer below [10^21] in absolute value, which [parseInt]
    reads back from its decimal writing. *)
Definition simulate_count (n : option Z) : Z :=
  match n with
  | None => 10
  | Some z => if Z.eqb z 0 then 10 else z
  end.

(** [POST /simulate]: the array [results]. *)
Definition post_simulate (n : option Z) (random : nat -> Q)
  : list SimResult.t :=
  map (sim_iteration random) (seq 0 (Z.to_nat (simulate_count n))).

(** Discharges [~ a == b] between two constants. *)
Ltac Qconst_neq :=
  let H := fresh in intro H; vm_compute in H; discriminate H.

(** Discharges an order between two constants. *)
Ltac Qconst := unfold Qle, Qlt; simpl; lia.

(** ** Rational arithmetic *)

Lemma Qeq_bool_comp (a a' b b' : Q) :
  a == a' -> b == b' -> Qeq_bool a b = Qeq_bool a' b'.
Proof.
  intros Ha Hb.
  destruct (Qeq_bool a b) eqn:E; symmetry.
  - apply Qeq_bool_iff. apply Qeq_bool_iff in E. now rewrite <- Ha, <- Hb.
  - destruct (Qeq_bool a' b') eqn:E'; [|reflexivity].
    apply Qeq_bool_iff in E'. rewrite <- Ha, <- Hb in E'.
    apply Qeq_bool_iff in E'. congruence.
Qed.

Lemma Qle_bool_comp (a a' b b' : Q) :
  a == a' -> b == b' -> Qle_bool a b = Qle_bool a' b'.
Proof.
  intros Ha Hb.
  destruct (Qle_bool a b) eqn:E; symmetry.
  - apply Qle_bool_iff. apply Qle_bool_iff in E. now rewrite <- Ha, <- Hb.
  - destruct (Qle_bool a' b') eqn:E'; [|reflexivity].
    apply Qle_bool_iff in E'. rewrite <- Ha, <- Hb in E'.
    apply Qle_bool_iff in E'. congruence.
Qed.

Lemma Qeq_bool_false (a b : Q) : ~ a == b -> Qeq_bool a b = false.
Proof.
  intros H. destruct (Qeq_bool a b) eqn:E; [|reflexivity].
  apply Qeq_bool_iff in E. contradiction.
Qed.

Lemma Qeq_bool_true (a b : Q) : a == b -> Qeq_bool a b = true.
Proof. apply Qeq_bool_iff. Qed.

(** Sign and order of the reciprocal. *)
Lemma recip_pos (x : Q) : 0 < x -> 0 < 1 / x.
Proof.
  intros H. unfold Qdiv. rewrite Qmult_1_l. now apply Qinv_lt_0_compat.
Qed.

Lemma recip_neg (x : Q) : x < 0 -> 1 / x < 0.
Proof.
  intros H. assert (Hx : ~ x == 0) by lra.
  pose proof (Qmult_inv_r x Hx) as Hi.
  unfold Qdiv. set (y := / x) in *. nra.
Qed.

Lemma recip_antitone (a b : Q) : 0 < a -> a <= b -> 1 / b <= 1 / a.
Proof.
  intros Ha Hab.
  assert (Hx : ~ a == 0) by lra. assert (Hy : ~ b == 0) by lra.
  pose proof (Qmult_inv_r a Hx) as Hi. pose proof (Qmult_inv_r b Hy) as Hj.
  unfold Qdiv. set (y := / a) in *. set (z := / b) in *.
  assert (0 < y) by nra. assert (0 < z) by nra. nra.
Qed.

Lemma nz_nonzero (t : Q) : ~ nz t == 0.
Proof.
  unfold nz. destruct (Qeq_bool t 0) eqn:E.
  - Qconst_neq.
  - intros H. apply Qeq_bool_iff in H. congruence.
Qed.

Lemma nz_id (t : Q) : ~ t == 0 -> nz t = t.
Proof. intros H. unfold nz. now rewrite Qeq_bool_false. Qed.

(** ** Properties of the number model *)

Module NumFacts.
Import Num.

#[export] Instance same_Equivalence : Equivalence same.
Proof.
  split.
  - intros [a| | |]; simpl; auto. reflexivity.
  - intros [a| | |] [b| | |]; simpl; auto. intros H; now symmetry.
  - intros [a| | |] [b| | |] [c| | |]; simpl; auto; try tauto.
    intros H1 H2; now rewrite H1.
Qed.

#[export] Instance neg_Proper : Proper (same ==> same) neg.
Proof.
  intros [a| | |] [a'| | |] Hx; simpl in *; try contradiction; auto.
  now rewrite Hx.
Qed.

#[export] Instance add_Proper : Proper (same ==> same ==> same) add.
Proof.
  intros [a| | |] [a'| | |] Hx [b| | |] [b'| | |] Hy;
    simpl in *; try contradiction; auto.
  now rewrite Hx, Hy.
Qed.

#[export] Instance sub_Proper : Proper (same ==> same ==> same) sub.
Proof. intros x x' Hx y y' Hy. unfold sub. now rewrite Hx, Hy. Qed.

#[export] Instance mul_Proper : Proper (same ==> same ==> same) mul.
Proof.
  intros [a| | |] [a'| | |] Hx [b| | |] [b'| | |] Hy;
    simpl in *; try contradiction; auto;
    try (rewrite Hx; reflexivity); try (rewrite Hy; reflexivity).
  now rewrite Hx, Hy.
Qed.

#[export] Instance div_Proper : Proper (same ==> same ==> same) div.
Proof.
  intros [a| | |] [a'| | |] Hx [b| | |] [b'| | |] Hy;
    simpl in *; try contradiction; auto; try reflexivity.
  - rewrite (Qeq_bool_comp b b' 0 0 Hy (Qeq_refl 0)).
    destruct (Qeq_bool b' 0).
    + rewrite Hx. reflexivity.
    + simpl. now rewrite Hx, Hy.
  - rewrite (Qle_bool_comp 0 0 b b' (Qeq_refl 0) Hy). reflexivity.
  - rewrite (Qle_bool_comp 0 0 b b' (Qeq_refl 0) Hy). reflexivity.
Qed.

#[export] Instance Math_max_Proper :
  Proper (same ==> same ==> same) Math_max.
Proof.
  intros [a| | |] [a'| | |] Hx [b| | |] [b'| | |] Hy;
    simpl in *; try contradiction; auto.
  now rewrite Hx, Hy.
Qed.

Lemma round_comp (a b : Q) : a == b -> round a = round b.
Proof. intros H. unfold round. now rewrite H. Qed.

#[export] Instance round_Proper : Proper (Qeq ==> eq) round.
Proof. intros a b H. now apply round_comp. Qed.

#[export] Instance Math_round_Proper : Proper (same ==> same) Math_round.
Proof.
  intros [a| | |] [a'| | |] Hx; simpl in Hx; try contradiction;
    cbn [Math_round same]; auto.
  now rewrite (round_comp a a' Hx).
Qed.

#[export] Instance or_else_Proper :
  Proper (same ==> same ==> same) or_else.
Proof.
  intros [a| | |] [a'| | |] Hx y y' Hy; unfold or_else;
    simpl in *; try contradiction; auto.
  rewrite (Qeq_bool_comp a a' 0 0 Hx (Qeq_refl 0)).
  destruct (Qeq_bool a' 0); auto.
Qed.

Lemma add_comm (x y : number) : same (add x y) (add y x).
Proof. destruct x, y; simpl; auto. apply Qplus_comm. Qed.

(** An integer is its own rounding. *)
Lemma round_Z (n : Z) : round (inject_Z n) = n.
Proof.
  unfold round.
  pose proof (Qfloor_le (inject_Z n + (1 # 2))) as Hl.
  pose proof (Qlt_floor (inject_Z n + (1 # 2))) as Hu.
  set (k := Qfloor (inject_Z n + (1 # 2))) in *.
  assert (H1 : (k <= n)%Z).
  { destruct (Z_le_gt_dec k n) as [|Hgt]; auto.
    assert (inject_Z (n + 1) <= inject_Z k) by (rewrite <- Zle_Qle; lia).
    rewrite inject_Z_plus in H. change (inject_Z 1) with 1 in H.
    exfalso. lra. }
  assert (H2 : (n < k + 1)%Z).
  { rewrite Zlt_Qlt. rewrite inject_Z_plus in *.
    change (inject_Z 1) with 1 in *. lra. }
  lia.
Qed.

Lemma round_mono (a b : Q) : a <= b -> (round a <= round b)%Z.
Proof. intros H. apply Qfloor_resp_le. lra. Qed.

Lemma div_Fin (a b : Q) : ~ b == 0 -> div (Fin a) (Fin b) = Fin (a / b).
Proof. intros H. simpl. now rewrite Qeq_bool_false. Qed.

(** The divisor [x || 1] on a rational. *)
Lemma or_else_1_Fin (t : Q) : or_else (Fin t) (Fin 1) = Fin (nz t).
Proof.
  unfold or_else, nz; cbn [falsy]. now destruct (Qeq_bool t 0).
Qed.

(** [Math.max] against a rational bound never returns a number below
    the bound. *)
Lemma Math_max_not_below (m : Q) (x : number) :
  ~ lt (Math_max (Fin m) x) (Fin m).
Proof.
  destruct x as [q| | |]; simpl; auto.
  - pose proof (Q.le_max_l m q). lra.
  - lra.
Qed.

(** Rounding to one decimal, as [Math.round(x * 10) / 10] does. *)
Lemma round1_Fin (a : Q) :
  div (Math_round (mul (Fin a) (Fin 10))) (Fin 10)
  = Fin (inject_Z (round (a * 10)) / 10).
Proof.
  cbn [mul Math_round]. rewrite div_Fin by Qconst_neq. reflexivity.
Qed.

(** A number with one decimal is left unchanged by that rounding. *)
Lemma round1_fixed (n : Z) (a : Q) :
  a == inject_Z n / 10 -> round (a * 10) = n.
Proof.
  intros H. transitivity (round (inject_Z n)); [|apply round_Z].
  apply round_comp. rewrite H. field.
Qed.

(** Rounding to two decimals never goes below a floor of 1.01. *)
Lemma round2_floor (P : Q) :
  1.01 <= P -> 1.01 <= inject_Z (round (P * 100)) / 100.
Proof.
  intros H.
  assert (Hr : (101 <= round (P * 100))%Z).
  { rewrite <- (round_Z 101). apply round_mono.
    change (inject_Z 101) with 101. lra. }
  apply Qle_shift_div_l; [Qconst|].
  rewrite Zle_Qle in Hr. change (inject_Z 101) with 101 in Hr. lra.
Qed.


End NumFacts.

Import NumFacts.

(** ** The team value *)

(** Missing ranks fall back to [1.0]; every multiplier lies in [1, 1.1]. *)
Lemma getRankMultiplier_range (r : number) :
  exists m, getRankMultiplier r = Fin m /\ 1 <= m /\ m <= 1.1.
Proof.
  unfold getRankMultiplier, rank_property, RANK_MULTIPLIERS.
  destruct r as [q| | |];
    try (exists 1.0; split; [reflexivity | split; Qconst]).
  cbn [find fst snd option_map].
  repeat match goal with
         | |- context [Qeq_bool ?a q] => destruct (Qeq_bool a q)
         end;
    cbn [option_map snd];
    (eexists; split; [vm_compute; reflexivity | split; Qconst]).
Qed.

Lemma epaFactor_pos (e : Q) : 0.01 <= Qmax 0.01 (e / SCALE_EPA).
Proof. apply Q.le_max_l. Qed.

Lemma epaFactor_mono (e1 e2 : Q) :
  e1 <= e2 -> Qmax 0.01 (e1 / SCALE_EPA) <= Qmax 0.01 (e2 / SCALE_EPA).
Proof.
  intros H. apply Q.max_le_compat_l. unfold SCALE_EPA.
  unfold Qdiv. apply Qmult_le_compat_r; [exact H | Qconst].
Qed.

(** Away from the pole [win_prob = - EPS] every field is a rational, given
    by the formula of the source. *)
Lemma computeTeamValue_regular (k : string) (r : number) (e p m : Q) :
  getRankMultiplier r = Fin m ->
  ~ p + EPS == 0 ->
  computeTeamValue (mkTeamObj k r (Fin e) (Fin p)) =
  let raw := Qmax 0.01 (e / SCALE_EPA) * m * (1 / (p + EPS)) in
  {| rawValue := Fin raw;
     value := Fin (Qmax MIN_TEAM_VALUE raw);
     components := {| epaFactor := Fin (Qmax 0.01 (e / SCALE_EPA));
                      rankMul := Fin m;
                      winFactor := Fin (1 / (p + EPS)) |} |}.
Proof.
  intros Hm Hp. unfold computeTeamValue.
  cbn [epa rank win_prob]. rewrite Hm. cbn [Num.add].
  rewrite !div_Fin by (exact Hp || Qconst_neq).
  reflexivity.
Qed.

(** At the pole the division is [1 / 0]. *)
Lemma computeTeamValue_pole (k : string) (r : number) (e p m : Q) :
  getRankMultiplier r = Fin m ->
  0 < m ->
  p + EPS == 0 ->
  computeTeamValue (mkTeamObj k r (Fin e) (Fin p)) =
  {| rawValue := PInf;
     value := PInf;
     components := {| epaFactor := Fin (Qmax 0.01 (e / SCALE_EPA));
                      rankMul := Fin m;
                      winFactor := PInf |} |}.
Proof.
  intros Hm Hpos Hp. unfold computeTeamValue.
  cbn [epa rank win_prob]. rewrite Hm. cbn [Num.add].
  rewrite div_Fin by Qconst_neq.
  assert (Hw : (Fin 1 / Fin (p + EPS))%js = PInf).
  { cbn [Num.div]. rewrite (Qeq_bool_true _ _ Hp). reflexivity. }
  rewrite Hw. cbn [Num.mul Num.Math_max].
  assert (Hg : (Qmax 0.01 (e / SCALE_EPA) * m ?= 0) = Gt).
  { apply Qgt_alt. pose proof (epaFactor_pos e).
    apply Qmult_lt_0_compat; [|exact Hpos].
    eapply Qlt_le_trans; [|eassumption]. Qconst. }
  rewrite Hg. reflexivity.
Qed.

(** A negative win factor gives a negative raw value, clamped to the floor. *)
Lemma clamp_negative (f m w : Q) :
  0.01 <= f -> 1 <= m -> w < 0 -> Qmax MIN_TEAM_VALUE (f * m * w) == 1.
Proof.
  intros Hf Hm Hw. unfold MIN_TEAM_VALUE.
  rewrite Q.max_l; [reflexivity|].
  assert (0 < f * m) by (apply Qmult_lt_0_compat; lra).
  assert (f * m * w < 0) by nra.
  apply Qle_trans with 0; [lra | Qconst].
Qed.

(** C2.  For every team with a numeric [epa] and [win_prob], and any
    [rank], the [value] returned by [computeTeamValue] is at least
    [MIN_TEAM_VALUE]; it is [Math.max(MIN_TEAM_VALUE, rawValue)], so it is
    [rawValue] itself whenever that is not below the floor and the floor
    otherwise; a [rawValue] below the floor does occur; and whatever the
    three inputs, absent ones included, [value] is never a number below the
    floor. *)
Theorem computeTeamValue_value_floor :
  (forall (k : string) (r : number) (e p : Q),
      let v := computeTeamValue (mkTeamObj k r (Fin e) (Fin p)) in
      (Fin MIN_TEAM_VALUE <= value v)%js
      /\ value v = Num.Math_max (Fin MIN_TEAM_VALUE) (rawValue v)
      /\ (((Fin MIN_TEAM_VALUE <= rawValue v)%js
           /\ (value v =~ rawValue v)%js)
          \/ ((rawValue v < Fin MIN_TEAM_VALUE)%js
              /\ (value v =~ Fin MIN_TEAM_VALUE)%js)))
  /\ (exists (k : string) (r : number) (e p : Q),
         (rawValue (computeTeamValue (mkTeamObj k r (Fin e) (Fin p)))
          < Fin MIN_TEAM_VALUE)%js)
  /\ (forall (t : TeamObj),
         ~ (value (computeTeamValue t) < Fin MIN_TEAM_VALUE)%js).
Proof.
  split; [|split].
  - intros k r e p.
    destruct (getRankMultiplier_range r) as [m [Hm [Hm1 Hm2]]].
    destruct (Qeq_dec (p + EPS) 0) as [Hp | Hp].
    + rewrite (computeTeamValue_pole k r e p m Hm) by (exact Hp || lra).
      cbn. split; [exact I|]. split; [reflexivity|]. left. split; exact I.
    + rewrite (computeTeamValue_regular k r e p m Hm Hp).
      cbn [rawValue value Num.le Num.lt Num.same Num.Math_max].
      split; [apply Q.le_max_l|]. split; [reflexivity|].
      set (raw := Qmax 0.01 (e / SCALE_EPA) * m * (1 / (p + EPS))).
      destruct (Qlt_le_dec raw MIN_TEAM_VALUE) as [Hlt | Hle].
      * right. split; [exact Hlt|]. apply Q.max_l. lra.
      * left. split; [exact Hle|]. now apply Q.max_r.
  - exists EmptyString, (Fin 8), 0, (1 # 2). vm_compute. reflexivity.
  - intros t. unfold computeTeamValue. cbn [value].
    apply Math_max_not_below.
Qed.

(** C3, as amended.  For every numeric [epa], any [rank] and every numeric
    [win_prob] other than [- EPS], every field returned by
    [computeTeamValue] is a finite number. *)
Theorem computeTeamValue_finite_off_pole
  (k : string) (r : number) (e p : Q) :
  ~ p == - EPS ->
  all_finite (computeTeamValue (mkTeamObj k r (Fin e) (Fin p))) = true.
Proof.
  intros Hp.
  destruct (getRankMultiplier_range r) as [m [Hm _]].
  rewrite (computeTeamValue_regular k r e p m Hm).
  - reflexivity.
  - intros H. apply Hp. lra.
Qed.

Lemma computeTeamValue_finite_off_pole_witness :
  ~ 0 == - EPS
  /\ all_finite
       (computeTeamValue (mkTeamObj "frc971" (Fin 5) (Fin (-3)) (Fin 0)))
     = true.
Proof.
  split.
  - intro H. vm_compute in H. discriminate H.
  - apply (computeTeamValue_finite_off_pole "frc971" (Fin 5) (-3) 0).
    intro H. vm_compute in H. discriminate H.
Defined.

(** C3, the claim as stated fails: at [win_prob = -0.001] the sum
    [win_prob + EPS] is zero, [winFactor] is [1 / 0 = Infinity], and so are
    [rawValue] and [value]. *)
Lemma computeTeamValue_infinite_at_pole :
  let v := computeTeamValue
             (mkTeamObj "frc254" (Fin 1) (Fin 38.5) (Fin (- 0.001))) in
  winFactor (components v) = PInf
  /\ rawValue v = PInf
  /\ value v = PInf
  /\ all_finite v = false.
Proof. vm_compute. repeat split. Qed.

(** C5.  With [rank] and [win_prob] fixed, the value does not decrease
    when [epa] grows (where both are clamped the two values are the
    floor). *)
Theorem computeTeamValue_mono_epa
  (k : string) (r : number) (e1 e2 p : Q) :
  e1 <= e2 ->
  (value (computeTeamValue (mkTeamObj k r (Fin e1) (Fin p)))
   <= value (computeTeamValue (mkTeamObj k r (Fin e2) (Fin p))))%js.
Proof.
  intros He.
  destruct (getRankMultiplier_range r) as [m [Hm [Hm1 Hm2]]].
  destruct (Qeq_dec (p + EPS) 0) as [Hp | Hp].
  - rewrite !(computeTeamValue_pole k r _ p m Hm) by (exact Hp || lra).
    exact I.
  - rewrite !(computeTeamValue_regular k r _ p m Hm Hp).
    cbn [value Num.le].
    pose proof (epaFactor_mono e1 e2 He) as Hf.
    pose proof (epaFactor_pos e1) as Hf1.
    pose proof (epaFactor_pos e2) as Hf2.
    set (f1 := Qmax 0.01 (e1 / SCALE_EPA)) in *.
    set (f2 := Qmax 0.01 (e2 / SCALE_EPA)) in *.
    destruct (Qlt_le_dec (p + EPS) 0) as [Hneg | Hpos].
    + pose proof (recip_neg _ Hneg) as Hw.
      rewrite !clamp_negative by assumption. apply Qle_refl.
    + assert (Hw : 0 < 1 / (p + EPS)) by (apply recip_pos; lra).
      apply Q.max_le_compat_l.
      apply Qmult_le_compat_r; [apply Qmult_le_compat_r; lra | lra].
Qed.

Lemma computeTeamValue_mono_epa_witness :
  15.2 <= 38.5
  /\ (value (computeTeamValue
               (mkTeamObj "frc971" (Fin 5) (Fin 15.2) (Fin 0.43)))
      <= value (computeTeamValue
                  (mkTeamObj "frc971" (Fin 5) (Fin 38.5) (Fin 0.43))))%js.
Proof.
  split.
  - unfold Qle; simpl; lia.
  - apply (computeTeamValue_mono_epa "frc971" (Fin 5) 15.2 38.5 0.43).
    unfold Qle; simpl; lia.
Defined.

(** C4, as amended.  With [rank] and [epa] fixed and [p1 <= p2] on the
    same side of the pole [- EPS] (as all of [0, 1] is), the value at [p1]
    is at least the value at [p2]; where the value at [p1] is clamped, both
    are the floor. *)
Theorem computeTeamValue_mono_win_prob
  (k : string) (r : number) (e p1 p2 : Q) :
  p1 <= p2 ->
  - EPS <= p1 \/ p2 < - EPS ->
  let v1 := computeTeamValue (mkTeamObj k r (Fin e) (Fin p1)) in
  let v2 := computeTeamValue (mkTeamObj k r (Fin e) (Fin p2)) in
  (value v2 <= value v1)%js
  /\ ((rawValue v1 <= Fin MIN_TEAM_VALUE)%js ->
      (value v1 =~ Fin MIN_TEAM_VALUE)%js
      /\ (value v2 =~ Fin MIN_TEAM_VALUE)%js).
Proof.
  intros Hle Hside.
  destruct (getRankMultiplier_range r) as [m [Hm [Hm1 Hm2]]].
  pose proof (epaFactor_pos e) as Hf.
  destruct (Qeq_dec (p1 + EPS) 0) as [Hp1 | Hp1].
  { (* p1 at the pole *)
    cbv zeta.
    rewrite (computeTeamValue_pole k r e p1 m Hm) by (exact Hp1 || lra).
    cbn [value rawValue]. split.
    - destruct (Qeq_dec (p2 + EPS) 0) as [Hp2 | Hp2].
      + rewrite (computeTeamValue_pole k r e p2 m Hm) by (exact Hp2 || lra).
        exact I.
      + rewrite (computeTeamValue_regular k r e p2 m Hm Hp2). exact I.
    - intros []. }
  assert (Hp2 : ~ p2 + EPS == 0) by (intro; destruct Hside; lra).
  cbv zeta.
  rewrite (computeTeamValue_regular k r e p1 m Hm Hp1).
  rewrite (computeTeamValue_regular k r e p2 m Hm Hp2).
  cbn [value rawValue Num.le Num.same].
  set (f := Qmax 0.01 (e / SCALE_EPA)) in *.
  destruct Hside as [Hside | Hside].
  - (* both to the right of the pole *)
    assert (H1 : 0 < p1 + EPS) by lra.
    pose proof (recip_antitone (p1 + EPS) (p2 + EPS) H1 ltac:(lra)) as Hw.
    assert (Hw2 : 0 < 1 / (p2 + EPS)) by (apply recip_pos; lra).
    set (w1 := 1 / (p1 + EPS)) in *. set (w2 := 1 / (p2 + EPS)) in *.
    assert (Hfm : 0 <= f * m) by (apply Qmult_le_0_compat; lra).
    assert (Hraw : f * m * w2 <= f * m * w1)
      by (rewrite !(Qmult_comm (f * m)); apply Qmult_le_compat_r; lra).
    split.
    + now apply Q.max_le_compat_l.
    + intros Hc. split.
      * apply Q.max_l. exact Hc.
      * apply Q.max_l. lra.
  - (* both to the left of the pole *)
    assert (Hw1 : 1 / (p1 + EPS) < 0) by (apply recip_neg; lra).
    assert (Hw2 : 1 / (p2 + EPS) < 0) by (apply recip_neg; lra).
    rewrite !clamp_negative by assumption.
    split; [apply Qle_refl|]. intros _. split; reflexivity.
Qed.

Lemma computeTeamValue_mono_win_prob_witness :
  0.43 <= 0.78
  /\ (- EPS <= 0.43 \/ 0.78 < - EPS)
  /\ (value (computeTeamValue
               (mkTeamObj "frc971" (Fin 5) (Fin 15.2) (Fin 0.78)))
      <= value (computeTeamValue
                  (mkTeamObj "frc971" (Fin 5) (Fin 15.2) (Fin 0.43))))%js.
Proof.
  split; [unfold Qle; simpl; lia|].
  split; [left; unfold Qle; simpl; lia|].
  apply (computeTeamValue_mono_win_prob "frc971" (Fin 5) 15.2 0.43 0.78).
  - unfold Qle; simpl; lia.
  - left; unfold Qle; simpl; lia.
Defined.

(** C4, the claim as stated fails: with [rank] and [epa] fixed, the value
    at [win_prob = -1] is the floor, below the value at [win_prob = 0.43],
    which is not clamped. *)
Lemma computeTeamValue_win_prob_not_monotone :
  let v1 := computeTeamValue
              (mkTeamObj "frc971" (Fin 5) (Fin 15.2) (Fin (- 1))) in
  let v2 := computeTeamValue
              (mkTeamObj "frc971" (Fin 5) (Fin 15.2) (Fin 0.43)) in
  - 1 <= 0.43
  /\ (value v1 =~ Fin MIN_TEAM_VALUE)%js
  /\ (Fin MIN_TEAM_VALUE < value v2)%js
  /\ ~ (value v2 <= value v1)%js.
Proof.
  cbv zeta. split; [unfold Qle; simpl; lia|].
  split; [vm_compute; reflexivity|].
  split; [vm_compute; reflexivity|].
  vm_compute. intros H. apply H. reflexivity.
Qed.

(** ** The alliance value *)

(** C7.  On the empty array [computeAllianceValue] returns normally, with
    no teams, [allianceValue] 0 and [allianceEPA] 0. *)
Theorem computeAllianceValue_empty :
  computeAllianceValue [] =
  {| teams := []; allianceValue := Fin 0; allianceEPA := Fin 0 |}.
Proof. reflexivity. Qed.

(** C9.  On the example request the EPA totals are 82.1 for red and 75.0
    for blue, their mean is 78.55, and the [baseLine] that
    [suggestOverUnder] returns is 78.6: [Math.round] sends the tie 785.5
    up. *)
Theorem example_baseLine :
  let red := computeAllianceValue example_red in
  let blue := computeAllianceValue example_blue in
  (allianceEPA red =~ Fin 82.1)%js
  /\ (allianceEPA blue =~ Fin 75.0)%js
  /\ (82.1 + 75.0) / 2 == 78.55
  /\ Num.Math_round (Fin (78.55 * 10)) = Fin 786
  /\ (Suggestion.baseLine (suggestOverUnder red blue) =~ Fin 78.6)%js.
Proof.
  cbv zeta. repeat split; vm_compute; reflexivity.
Qed.

(** ** The suggested line *)

(** On alliances whose value and EPA total are numeric, every constant of
    the body is a rational, given by the formula of the source. *)
Section finite_alliances.

Variables (tr tb : list ScoredTeam) (vr vb er eb : Q).

Lemma baseLine_Fin :
  baseLine (mkAlliance tr (Fin vr) (Fin er)) (mkAlliance tb (Fin vb) (Fin eb))
  = Fin (inject_Z (Num.round ((er + eb) / 2 * 10)) / 10).
Proof.
  unfold baseLine; cbn [allianceEPA Num.add].
  rewrite (div_Fin _ 2) by Qconst_neq. apply round1_Fin.
Qed.

Lemma redShare_Fin :
  redShare (mkAlliance tr (Fin vr) (Fin er)) (mkAlliance tb (Fin vb) (Fin eb))
  = Fin (vr / nz (vr + vb)).
Proof.
  unfold redShare, totalValue; cbn [allianceValue Num.add].
  rewrite or_else_1_Fin. apply div_Fin, nz_nonzero.
Qed.

Lemma blueShare_Fin :
  blueShare (mkAlliance tr (Fin vr) (Fin er)) (mkAlliance tb (Fin vb) (Fin eb))
  = Fin (vb / nz (vr + vb)).
Proof.
  unfold blueShare, totalValue; cbn [allianceValue Num.add].
  rewrite or_else_1_Fin. apply div_Fin, nz_nonzero.
Qed.

Lemma redDelta_Fin :
  redDelta (mkAlliance tr (Fin vr) (Fin er)) (mkAlliance tb (Fin vb) (Fin eb))
  = Fin ((vr / nz (vr + vb) - 0.5) * 0.2
         * (inject_Z (Num.round ((er + eb) / 2 * 10)) / 10)).
Proof. unfold redDelta. rewrite redShare_Fin, baseLine_Fin. reflexivity. Qed.

Lemma blueDelta_Fin :
  blueDelta (mkAlliance tr (Fin vr) (Fin er)) (mkAlliance tb (Fin vb) (Fin eb))
  = Fin ((vb / nz (vr + vb) - 0.5) * 0.2
         * (inject_Z (Num.round ((er + eb) / 2 * 10)) / 10)).
Proof.
  unfold blueDelta. rewrite blueShare_Fin, baseLine_Fin. reflexivity.
Qed.

Lemma avgValue_Fin :
  avgValue (mkAlliance tr (Fin vr) (Fin er)) (mkAlliance tb (Fin vb) (Fin eb))
  = Fin (nz ((vr + vb) / 2)).
Proof.
  unfold avgValue; cbn [allianceValue Num.add].
  rewrite (div_Fin _ 2) by Qconst_neq. apply or_else_1_Fin.
Qed.

Lemma redPayout_Fin :
  redPayout (mkAlliance tr (Fin vr) (Fin er)) (mkAlliance tb (Fin vb) (Fin eb))
  = Fin (Qmax 1.01 (1 + (1 - vr / nz ((vr + vb) / 2)) * 0.5)).
Proof.
  unfold redPayout. rewrite avgValue_Fin. cbn [allianceValue].
  rewrite div_Fin by apply nz_nonzero. reflexivity.
Qed.

Lemma bluePayout_Fin :
  bluePayout (mkAlliance tr (Fin vr) (Fin er))
             (mkAlliance tb (Fin vb) (Fin eb))
  = Fin (Qmax 1.01 (1 + (1 - vb / nz ((vr + vb) / 2)) * 0.5)).
Proof.
  unfold bluePayout. rewrite avgValue_Fin. cbn [allianceValue].
  rewrite div_Fin by apply nz_nonzero. reflexivity.
Qed.

(** The shares of two non-negative values lie between 0 and 1. *)
Lemma shares_in_unit :
  0 <= vr -> 0 <= vb ->
  let A := mkAlliance tr (Fin vr) (Fin er) in
  let B := mkAlliance tb (Fin vb) (Fin eb) in
  (Fin 0 <= redShare A B)%js /\ (redShare A B <= Fin 1)%js
  /\ (Fin 0 <= blueShare A B)%js /\ (blueShare A B <= Fin 1)%js.
Proof.
  intros Hr Hb. cbv zeta. rewrite redShare_Fin, blueShare_Fin. cbn [Num.le].
  assert (Hn : 0 < nz (vr + vb) /\ vr + vb <= nz (vr + vb)).
  { unfold nz. destruct (Qeq_bool (vr + vb) 0) eqn:E.
    - apply Qeq_bool_iff in E. lra.
    - assert (~ vr + vb == 0)
        by (intros H; apply Qeq_bool_iff in H; congruence).
      lra. }
  destruct Hn as [Hn1 Hn2].
  repeat split.
  - apply Qle_shift_div_l; lra.
  - apply Qle_shift_div_r; lra.
  - apply Qle_shift_div_l; lra.
  - apply Qle_shift_div_r; lra.
Qed.

End finite_alliances.


(** The extreme skew of the specification: 1000 against 1. *)
Example payoutMultiplier_skew :
  let s := suggestOverUnder (mkAlliance [] (Fin 1000) (Fin 0))
                            (mkAlliance [] (Fin 1) (Fin 0)) in
  (Side.payoutMultiplier (PerAlliance.red (Suggestion.perAlliance s))
   =~ Fin 1.01)%js
  /\ (Side.payoutMultiplier (PerAlliance.blue (Suggestion.perAlliance s))
      =~ Fin 1.5)%js.
Proof. cbv zeta. split; vm_compute; reflexivity. Qed.

(** C6, as amended.  Two alliances of equal value, with a positive total
    that does not exceed the largest finite binary64 number and EPA totals
    whose sum is at most [EPA_BOUND] in absolute value, get both lines
    equal to [baseLine], which is also [matchLine], and both payout
    multipliers equal to 1.01, the floor applied to a payout of exactly
    1. *)
Theorem equal_values_line
  (tr tb : list ScoredTeam) (vr vb er eb : Q) :
  vr == vb ->
  0 < vr + vb ->
  vr + vb <= MAX_VALUE ->
  Qabs (er + eb) <= EPA_BOUND ->
  let A := mkAlliance tr (Fin vr) (Fin er) in
  let B := mkAlliance tb (Fin vb) (Fin eb) in
  let s := suggestOverUnder A B in
  let red := PerAlliance.red (Suggestion.perAlliance s) in
  let blue := PerAlliance.blue (Suggestion.perAlliance s) in
  (Side.line red =~ Suggestion.baseLine s)%js
  /\ (Side.line blue =~ Suggestion.baseLine s)%js
  /\ (Suggestion.matchLine s =~ Suggestion.baseLine s)%js
  /\ (Fin 1 + (Fin 1 - allianceValue A / avgValue A B) * Fin 0.5 =~ Fin 1)%js
  /\ (Fin 1 + (Fin 1 - allianceValue B / avgValue A B) * Fin 0.5 =~ Fin 1)%js
  /\ (Side.payoutMultiplier red =~ Fin 1.01)%js
  /\ (Side.payoutMultiplier blue =~ Fin 1.01)%js.
Proof.
  intros Heq Hpos _ _. cbv zeta.
  unfold suggestOverUnder.
  cbn [Suggestion.perAlliance Suggestion.baseLine Suggestion.matchLine
       PerAlliance.red PerAlliance.blue Side.line Side.payoutMultiplier].
  set (n := Num.round ((er + eb) / 2 * 10)).
  assert (Hnz : nz (vr + vb) = vr + vb) by (apply nz_id; lra).
  assert (Hhalf : ~ (vr + vb) / 2 == 0).
  { intros H. assert (E : vr + vb == (vr + vb) / 2 * 2) by field.
    rewrite H in E. lra. }
  assert (Hnz2 : nz ((vr + vb) / 2) = (vr + vb) / 2) by now apply nz_id.
  assert (HrL : redLine (mkAlliance tr (Fin vr) (Fin er))
                        (mkAlliance tb (Fin vb) (Fin eb))
                = Fin (inject_Z n / 10)).
  { unfold redLine. rewrite redDelta_Fin, baseLine_Fin. fold n.
    cbn [Num.add]. rewrite round1_Fin.
    rewrite (round1_fixed n); [reflexivity|].
    rewrite Hnz, Heq. field. lra. }
  assert (HbL : blueLine (mkAlliance tr (Fin vr) (Fin er))
                         (mkAlliance tb (Fin vb) (Fin eb))
                = Fin (inject_Z n / 10)).
  { unfold blueLine. rewrite blueDelta_Fin, baseLine_Fin. fold n.
    cbn [Num.add]. rewrite round1_Fin.
    rewrite (round1_fixed n); [reflexivity|].
    rewrite Hnz, Heq. field. lra. }
  assert (HmL : matchLine (mkAlliance tr (Fin vr) (Fin er))
                          (mkAlliance tb (Fin vb) (Fin eb))
                = Fin (inject_Z n / 10)).
  { unfold matchLine. rewrite HrL, HbL. cbn [Num.add].
    rewrite (div_Fin _ 2) by Qconst_neq. rewrite round1_Fin.
    rewrite (round1_fixed n); [reflexivity|]. field. }
  rewrite HrL, HbL, HmL, baseLine_Fin. fold n.
  rewrite redPayout_Fin, bluePayout_Fin, avgValue_Fin, Hnz2.
  cbn [allianceValue].
  rewrite !div_Fin by exact Hhalf.
  cbn [Num.sub Num.neg Num.add Num.mul Num.Math_round Num.same].
  rewrite !div_Fin by Qconst_neq. cbn [Num.same].
  assert (Hr : 1 + (1 + - (vr / ((vr + vb) / 2))) * 0.5 == 1)
    by (rewrite Heq; field; lra).
  assert (Hb : 1 + (1 + - (vb / ((vr + vb) / 2))) * 0.5 == 1)
    by (rewrite Heq; field; lra).
  repeat split; try reflexivity; try assumption.
  - unfold Qminus. rewrite Hr. vm_compute. reflexivity.
  - unfold Qminus. rewrite Hb. vm_compute. reflexivity.
Qed.

Lemma equal_values_line_witness :
  13 == 13
  /\ 0 < 13 + 13
  /\ 13 + 13 <= MAX_VALUE
  /\ Qabs (82.1 + 75.0) <= EPA_BOUND
  /\ (let s := suggestOverUnder (mkAlliance [] (Fin 13) (Fin 82.1))
                                (mkAlliance [] (Fin 13) (Fin 75.0)) in
      (Side.line (PerAlliance.red (Suggestion.perAlliance s))
       =~ Suggestion.baseLine s)%js).
Proof.
  split; [reflexivity|]. split; [reflexivity|].
  split; [vm_compute; discriminate|]. split; [vm_compute; discriminate|].
  apply (equal_values_line [] [] 13 13 82.1 75.0);
    try reflexivity; vm_compute; discriminate.
Defined.

Section equal_values_binary64.

Import PrimFloat.
Local Open Scope float_scope.
#[local] Set Warnings "-inexact-float".

(** C6, the claim as stated fails: for two alliances of the same value
    [1e308] the binary64 total [1e308 + 1e308] is [Infinity], which is
    positive, and so is the average; both shares are 0 instead of one
    half.  With EPA totals 10 and 10, [baseLine] is 10, both lines and
    [matchLine] are 9, and both payout multipliers are 1.5. *)
Lemma equal_values_overflow :
  let A := Float64.mkAlliance 1e308 10 in
  let B := Float64.mkAlliance 1e308 10 in
  Float64.allianceValue A = Float64.allianceValue B
  /\ Float64.totalValue A B = infinity
  /\ ltb 0 (Float64.totalValue A B) = true
  /\ Float64.redShare A B = 0
  /\ Float64.blueShare A B = 0
  /\ Float64.baseLine A B = 10
  /\ Float64.redLine A B = 9
  /\ Float64.blueLine A B = 9
  /\ Float64.matchLine A B = 9
  /\ Float64.redPayoutMultiplier A B = 1.5
  /\ Float64.bluePayoutMultiplier A B = 1.5.
Proof. cbv zeta. repeat split; vm_compute; reflexivity. Qed.

End equal_values_binary64.

(** The adjustment of a share between 0 and 1 is at most a tenth of the
    line it adjusts. *)
Lemma delta_abs (s bl : Q) :
  0 <= s -> s <= 1 -> Qabs ((s - 0.5) * 0.2 * bl) <= 0.1 * Qabs bl.
Proof.
  intros H0 H1. rewrite Qabs_Qmult.
  apply Qmult_le_compat_r; [|apply Qabs_nonneg].
  apply Qabs_Qle_condition. split; lra.
Qed.

(** C8, as amended.  For alliances with numeric values and EPA totals
    whose sum is at most [EPA_BOUND] in absolute value, and whose value
    shares lie between 0 and 1, each side's delta
    [(share - 0.5) * 0.2 * baseLine] is a number, as [baseLine] is, and is
    at most [0.1 * |baseLine|] in absolute value. *)
Theorem delta_bound
  (tr tb : list ScoredTeam) (vr vb er eb : Q) :
  let A := mkAlliance tr (Fin vr) (Fin er) in
  let B := mkAlliance tb (Fin vb) (Fin eb) in
  Qabs (er + eb) <= EPA_BOUND ->
  (Fin 0 <= redShare A B)%js -> (redShare A B <= Fin 1)%js ->
  (Fin 0 <= blueShare A B)%js -> (blueShare A B <= Fin 1)%js ->
  redDelta A B = ((redShare A B - Fin 0.5) * Fin 0.2 * baseLine A B)%js
  /\ blueDelta A B = ((blueShare A B - Fin 0.5) * Fin 0.2 * baseLine A B)%js
  /\ exists dr db bl : Q,
      redDelta A B = Fin dr
      /\ blueDelta A B = Fin db
      /\ baseLine A B = Fin bl
      /\ Qabs dr <= 0.1 * Qabs bl
      /\ Qabs db <= 0.1 * Qabs bl.
Proof.
  cbv zeta. intros _ Hr0 Hr1 Hb0 Hb1.
  split; [reflexivity|]. split; [reflexivity|].
  rewrite redShare_Fin in Hr0, Hr1. rewrite blueShare_Fin in Hb0, Hb1.
  cbn [Num.le] in Hr0, Hr1, Hb0, Hb1.
  rewrite redDelta_Fin, blueDelta_Fin, baseLine_Fin.
  do 3 eexists. do 3 (split; [reflexivity|]).
  split; now apply delta_abs.
Qed.

Lemma delta_bound_witness :
  let A := mkAlliance [] (Fin 1000) (Fin 82.1) in
  let B := mkAlliance [] (Fin 1) (Fin 75.0) in
  (Qabs (82.1 + 75.0) <= EPA_BOUND
   /\ (Fin 0 <= redShare A B)%js /\ (redShare A B <= Fin 1)%js
   /\ (Fin 0 <= blueShare A B)%js /\ (blueShare A B <= Fin 1)%js)
  /\ exists dr db bl : Q,
      redDelta A B = Fin dr
      /\ blueDelta A B = Fin db
      /\ baseLine A B = Fin bl
      /\ Qabs dr <= 0.1 * Qabs bl
      /\ Qabs db <= 0.1 * Qabs bl.
Proof.
  cbv zeta. split.
  - repeat split; vm_compute; discriminate.
  - apply (delta_bound [] [] 1000 1 82.1 75.0);
      vm_compute; discriminate.
Defined.

Section delta_binary64.

Import PrimFloat.
Local Open Scope float_scope.
#[local] Set Warnings "-inexact-float".

(** C8, the claim as stated fails: for two alliances of value 3, whose
    shares are one half, and EPA totals [1e308] and [1e308], the binary64
    sum of the totals is [Infinity] and so is [baseLine]; each delta is
    [0 * 0.2 * Infinity], which is [NaN] and is not at most
    [0.1 * |baseLine|], and both lines are [NaN]. *)
Lemma delta_not_a_number :
  let A := Float64.mkAlliance 3 1e308 in
  let B := Float64.mkAlliance 3 1e308 in
  Float64.redShare A B = 0.5
  /\ Float64.blueShare A B = 0.5
  /\ Float64.baseLine A B = infinity
  /\ is_nan (Float64.redDelta A B) = true
  /\ is_nan (Float64.blueDelta A B) = true
  /\ leb (abs (Float64.redDelta A B)) (0.1 * abs (Float64.baseLine A B))
     = false
  /\ leb (abs (Float64.blueDelta A B)) (0.1 * abs (Float64.baseLine A B))
     = false
  /\ is_nan (Float64.redLine A B) = true
  /\ is_nan (Float64.blueLine A B) = true.
Proof. cbv zeta. repeat split; vm_compute; reflexivity. Qed.

End delta_binary64.

(** A fully lopsided share of 1 moves the line by exactly a tenth. *)
Example delta_lopsided :
  let A := mkAlliance [] (Fin 30) (Fin 50) in
  let B := mkAlliance [] (Fin 0) (Fin 50) in
  (redShare A B =~ Fin 1)%js
  /\ (baseLine A B =~ Fin 50)%js
  /\ (redDelta A B =~ Fin 5)%js
  /\ (blueDelta A B =~ Fin (- 5))%js.
Proof. cbv zeta. repeat split; vm_compute; reflexivity. Qed.

(** ** Swapping the two sides *)

Lemma baseLine_swap (A B : Alliance) : (baseLine B A =~ baseLine A B)%js.
Proof.
  unfold baseLine. now rewrite (add_comm (allianceEPA B) (allianceEPA A)).
Qed.

Lemma totalValue_swap (A B : Alliance) :
  (totalValue B A =~ totalValue A B)%js.
Proof. unfold totalValue. apply add_comm. Qed.

Lemma share_swap (A B : Alliance) :
  (redShare B A =~ blueShare A B)%js /\ (blueShare B A =~ redShare A B)%js.
Proof.
  unfold redShare, blueShare.
  split; now rewrite (totalValue_swap A B).
Qed.

Lemma delta_swap (A B : Alliance) :
  (redDelta B A =~ blueDelta A B)%js /\ (blueDelta B A =~ redDelta A B)%js.
Proof.
  destruct (share_swap A B) as [H1 H2]. unfold redDelta, blueDelta.
  split.
  - now rewrite H1, (baseLine_swap A B).
  - now rewrite H2, (baseLine_swap A B).
Qed.

Lemma line_swap (A B : Alliance) :
  (redLine B A =~ blueLine A B)%js /\ (blueLine B A =~ redLine A B)%js.
Proof.
  destruct (delta_swap A B) as [H1 H2]. unfold redLine, blueLine.
  split.
  - now rewrite H1, (baseLine_swap A B).
  - now rewrite H2, (baseLine_swap A B).
Qed.

Lemma matchLine_swap (A B : Alliance) :
  (matchLine B A =~ matchLine A B)%js.
Proof.
  destruct (line_swap A B) as [H1 H2]. unfold matchLine.
  rewrite H1, H2.
  now rewrite (add_comm (blueLine A B) (redLine A B)).
Qed.

Lemma avgValue_swap (A B : Alliance) : (avgValue B A =~ avgValue A B)%js.
Proof.
  unfold avgValue.
  now rewrite (add_comm (allianceValue B) (allianceValue A)).
Qed.

Lemma payout_swap (A B : Alliance) :
  (redPayout B A =~ bluePayout A B)%js
  /\ (bluePayout B A =~ redPayout A B)%js.
Proof.
  unfold redPayout, bluePayout.
  split; now rewrite (avgValue_swap A B).
Qed.

(** C10.  Swapping the two arguments of [suggestOverUnder] leaves
    [baseLine] and [matchLine] unchanged and exchanges the two sides:
    the red result of the swapped call is the blue result of the original
    call, field by field, and conversely. *)
Theorem suggestOverUnder_swap (A B : Alliance) :
  let s := suggestOverUnder A B in
  let s' := suggestOverUnder B A in
  (Suggestion.baseLine s' =~ Suggestion.baseLine s)%js
  /\ (Suggestion.matchLine s' =~ Suggestion.matchLine s)%js
  /\ side_same (PerAlliance.red (Suggestion.perAlliance s'))
               (PerAlliance.blue (Suggestion.perAlliance s))
  /\ side_same (PerAlliance.blue (Suggestion.perAlliance s'))
               (PerAlliance.red (Suggestion.perAlliance s)).
Proof.
  cbv zeta. unfold suggestOverUnder, side_same.
  cbn [Suggestion.baseLine Suggestion.matchLine Suggestion.perAlliance
       PerAlliance.red PerAlliance.blue
       Side.line Side.allianceValue Side.payoutMultiplier].
  destruct (line_swap A B) as [L1 L2].
  destruct (payout_swap A B) as [P1 P2].
  split; [apply baseLine_swap|]. split; [apply matchLine_swap|].
  split; (split; [assumption|]; split; [reflexivity|]).
  - now rewrite P1.
  - now rewrite P2.
Qed.

(** ** The concrete evaluations in binary64

    The development computes on exact rationals.  The three evaluations
    below redo the arithmetic of the concrete inputs used above with the
    binary64 operations themselves, to check that rounding does not change
    what was found there. *)

Module Binary64.
Import PrimFloat.
Local Open Scope float_scope.
#[local] Set Warnings "-inexact-float".

(** At [win_prob = -0.001] the binary64 sum [win_prob + EPS] is exactly
    zero, so [winFactor] and [rawValue] are [Infinity]. *)
Example pole_is_exact :
  - 0.001 + 0.001 = 0
  /\ 1 / (- 0.001 + 0.001) = infinity
  /\ ltb 0.01 (38.5 / 10) = true
  /\ 38.5 / 10 * 1.10 * (1 / (- 0.001 + 0.001)) = infinity.
Proof. repeat split; vm_compute; reflexivity. Qed.

(** For rank 5 and [epa = 15.2] the raw value is negative at
    [win_prob = -1] and above the floor at [win_prob = 0.43]. *)
Example straddling_pole :
  ltb 0.01 (15.2 / 10) = true
  /\ ltb (15.2 / 10 * 1.02 * (1 / (- 1 + 0.001))) 0 = true
  /\ ltb 1 (15.2 / 10 * 1.02 * (1 / (0.43 + 0.001))) = true.
Proof. repeat split; vm_compute; reflexivity. Qed.

(** The EPA totals of the example request: blue is exactly 75, red is
    82.1 up to one unit in the last place, and ten times their mean lies
    strictly between 785.5 and 786, so that [Math.round] returns 786 and
    [baseLine] is the binary64 number written 78.6. *)
Example example_totals :
  let red := 0 + 38.5 + 28.4 + 15.2 in
  let blue := 0 + 34.1 + 26.0 + 14.9 in
  blue = 75
  /\ ltb (abs (red - 82.1)) 1e-13 = true
  /\ ltb 785.5 ((red + blue) / 2 * 10) = true
  /\ ltb ((red + blue) / 2 * 10) 786 = true
  /\ 786 / 10 = 78.6.
Proof. cbv zeta. repeat split; vm_compute; reflexivity. Qed.

End Binary64.

(** ** Further properties of the team value *)

(** The lookup of a rank: one of the eight listed ranks, or nothing. *)
Lemma getRankMultiplier_cases (r : number) :
  (exists k m, In (k, m) RANK_MULTIPLIERS
               /\ (r =~ Fin (inject_Z k))%js
               /\ getRankMultiplier r = Fin m /\ 1 < m)
  \/ ((forall k, (1 <= k <= 8)%Z -> ~ (r =~ Fin (inject_Z k))%js)
      /\ getRankMultiplier r = Fin 1.0).
Proof.
  destruct r as [q| | |];
    try (right; split; [intros k _ H; exact H | reflexivity]).
  unfold getRankMultiplier, rank_property, RANK_MULTIPLIERS.
  cbn [find fst snd option_map].
  repeat match goal with
         | |- context [Qeq_bool (inject_Z ?k) q] =>
             let E := fresh "E" in
             destruct (Qeq_bool (inject_Z k) q) eqn:E;
             [ left; exists k; eexists;
               split; [cbn; tauto|];
               split; [cbn [Num.same]; apply Qeq_bool_iff in E;
                       symmetry; exact E|];
               split; [vm_compute; reflexivity | Qconst] | ]
         end.
  right. split; [|reflexivity].
  intros k Hk H. cbn [Num.same] in H.
  assert (Hc : (k = 1 \/ k = 2 \/ k = 3 \/ k = 4
                \/ k = 5 \/ k = 6 \/ k = 7 \/ k = 8)%Z) by lia.
  assert (Hb : Qeq_bool (inject_Z k) q = true)
    by (apply Qeq_bool_iff; symmetry; exact H).
  repeat (destruct Hc as [Hc | Hc]; [subst k; congruence|]).
  subst k; congruence.
Qed.

(** X1.  [getRankMultiplier] returns the listed multiplier, which is above
    1, exactly for the numbers 1 to 8, and the fallback 1.0 for every other
    rank: 0, 9, a fraction, an infinity, [NaN] or an absent rank. *)
Theorem getRankMultiplier_lookup (r : number) :
  (exists k m, In (k, m) RANK_MULTIPLIERS
               /\ (r =~ Fin (inject_Z k))%js
               /\ getRankMultiplier r = Fin m /\ 1 < m)
  \/ ((forall k, (1 <= k <= 8)%Z -> ~ (r =~ Fin (inject_Z k))%js)
      /\ getRankMultiplier r = Fin 1.0).
Proof. exact (getRankMultiplier_cases r). Qed.

(** The multiplier of an integer rank, read off the table. *)
Lemma getRankMultiplier_integer (k : Z) :
  exists m, getRankMultiplier (Fin (inject_Z k)) = Fin m
            /\ ((k = 1%Z /\ m = 1.10) \/ (k = 2%Z /\ m = 1.08)
                \/ (k = 3%Z /\ m = 1.06) \/ (k = 4%Z /\ m = 1.04)
                \/ (k = 5%Z /\ m = 1.02) \/ (k = 6%Z /\ m = 1.01)
                \/ (k = 7%Z /\ m = 1.005) \/ (k = 8%Z /\ m = 1.001)
                \/ ((k < 1 \/ 8 < k)%Z /\ m = 1.0)).
Proof.
  destruct (Z_lt_le_dec k 1) as [Hlo | Hlo];
    [|destruct (Z_lt_le_dec 8 k) as [Hhi | Hhi]].
  - destruct (getRankMultiplier_cases (Fin (inject_Z k)))
      as [(j & m & Hin & Hs & _ & _) | [_ Hm]].
    + cbn [Num.same] in Hs. apply (proj1 (inject_Z_injective _ _)) in Hs.
      cbn in Hin. exfalso.
      repeat (destruct Hin as [Hin | Hin];
              [injection Hin as Hj _; lia|]).
      exact Hin.
    + exists 1.0. split; [exact Hm|]. repeat right. split; [lia|reflexivity].
  - destruct (getRankMultiplier_cases (Fin (inject_Z k)))
      as [(j & m & Hin & Hs & _ & _) | [_ Hm]].
    + cbn [Num.same] in Hs. apply (proj1 (inject_Z_injective _ _)) in Hs.
      cbn in Hin. exfalso.
      repeat (destruct Hin as [Hin | Hin];
              [injection Hin as Hj _; lia|]).
      exact Hin.
    + exists 1.0. split; [exact Hm|]. repeat right. split; [lia|reflexivity].
  - assert (Hc : (k = 1 \/ k = 2 \/ k = 3 \/ k = 4
                  \/ k = 5 \/ k = 6 \/ k = 7 \/ k = 8)%Z) by lia.
    repeat (destruct Hc as [Hc | Hc];
            [subst k; eexists; split; [vm_compute; reflexivity|];
             tauto|]).
    subst k; eexists; split; [vm_compute; reflexivity|]. tauto.
Qed.

(** A better integer rank never has a smaller multiplier. *)
Lemma getRankMultiplier_antitone (j k : Z) :
  (1 <= j <= k)%Z ->
  exists mj mk, getRankMultiplier (Fin (inject_Z j)) = Fin mj
                /\ getRankMultiplier (Fin (inject_Z k)) = Fin mk
                /\ 1 <= mk /\ mk <= mj.
Proof.
  intros Hjk.
  destruct (getRankMultiplier_integer j) as [mj [Hj Cj]].
  destruct (getRankMultiplier_integer k) as [mk [Hk Ck]].
  exists mj, mk. split; [exact Hj|]. split; [exact Hk|].
  repeat (destruct Cj as [[Ej Mj] | Cj]; [subst mj|]);
    try (destruct Cj as [Ej Mj]; subst mj);
    repeat (destruct Ck as [[Ek Mk] | Ck]; [subst mk|]);
    try (destruct Ck as [Ek Mk]; subst mk);
    try (exfalso; lia); split; Qconst.
Qed.

(** The value does not decrease when the rank multiplier grows. *)
Lemma value_mono_rankMul
  (k1 k2 : string) (r1 r2 : number) (m1 m2 e p : Q) :
  getRankMultiplier r1 = Fin m1 ->
  getRankMultiplier r2 = Fin m2 ->
  1 <= m1 -> m1 <= m2 ->
  (value (computeTeamValue (mkTeamObj k1 r1 (Fin e) (Fin p)))
   <= value (computeTeamValue (mkTeamObj k2 r2 (Fin e) (Fin p))))%js.
Proof.
  intros H1 H2 Hm1 Hm12.
  pose proof (epaFactor_pos e) as Hf.
  destruct (Qeq_dec (p + EPS) 0) as [Hp | Hp].
  - rewrite (computeTeamValue_pole k1 r1 e p m1 H1) by (exact Hp || lra).
    rewrite (computeTeamValue_pole k2 r2 e p m2 H2) by (exact Hp || lra).
    exact I.
  - rewrite (computeTeamValue_regular k1 r1 e p m1 H1 Hp).
    rewrite (computeTeamValue_regular k2 r2 e p m2 H2 Hp).
    cbn [value Num.le].
    set (f := Qmax 0.01 (e / SCALE_EPA)) in *.
    destruct (Qlt_le_dec (p + EPS) 0) as [Hneg | Hpos].
    + pose proof (recip_neg _ Hneg) as Hw.
      rewrite !clamp_negative by (assumption || lra). apply Qle_refl.
    + assert (Hw : 0 < 1 / (p + EPS)) by (apply recip_pos; lra).
      apply Q.max_le_compat_l.
      apply Qmult_le_compat_r; [|lra].
      rewrite !(Qmult_comm f). apply Qmult_le_compat_r; lra.
Qed.

(** X2.  With [epa] and [win_prob] fixed and numeric, a better (smaller)
    integer rank never gives a smaller value: for integers
    [1 <= j <= k], the value at rank [j] is at least the value at rank
    [k]. *)
Theorem computeTeamValue_mono_rank
  (key : string) (j k : Z) (e p : Q) :
  (1 <= j <= k)%Z ->
  (value (computeTeamValue
            (mkTeamObj key (Fin (inject_Z k)) (Fin e) (Fin p)))
   <= value (computeTeamValue
               (mkTeamObj key (Fin (inject_Z j)) (Fin e) (Fin p))))%js.
Proof.
  intros Hjk.
  destruct (getRankMultiplier_antitone j k Hjk)
    as (mj & mk & Hj & Hk & H1 & H2).
  exact (value_mono_rankMul key key _ _ mk mj e p Hk Hj H1 H2).
Qed.

Lemma computeTeamValue_mono_rank_witness :
  (1 <= 2 <= 9)%Z
  /\ (value (computeTeamValue
               (mkTeamObj "frc971" (Fin (inject_Z 9)) (Fin 15.2) (Fin 0.43)))
      <= value (computeTeamValue
                  (mkTeamObj "frc971" (Fin (inject_Z 2)) (Fin 15.2)
                             (Fin 0.43))))%js.
Proof.
  split; [lia|].
  apply (computeTeamValue_mono_rank "frc971" 2 9 15.2 0.43). lia.
Defined.

(** X3.  For a [win_prob] that is not negative the win factor is positive
    and at most [1 / EPS = 1000], whatever the [rank] and the [epa]; it is
    1000 at [win_prob = 0]. *)
Theorem winFactor_at_most_1000
  (key : string) (r e : number) (p : Q) :
  0 <= p ->
  let v := computeTeamValue (mkTeamObj key r e (Fin p)) in
  (exists w : Q, winFactor (components v) = Fin w /\ 0 < w /\ w <= 1000)
  /\ (p == 0 -> (winFactor (components v) =~ Fin 1000)%js).
Proof.
  intros Hp. cbv zeta.
  unfold computeTeamValue. cbn [win_prob components winFactor Num.add].
  assert (Hne : ~ p + EPS == 0) by (unfold EPS; lra).
  rewrite div_Fin by exact Hne. split.
  - eexists. split; [reflexivity|]. split.
    + apply recip_pos; unfold EPS; lra.
    + apply Qle_shift_div_r; unfold EPS; lra.
  - intros H0. cbn [Num.same]. rewrite H0. reflexivity.
Qed.

Lemma winFactor_at_most_1000_witness :
  0 <= 0.43
  /\ exists w : Q,
      winFactor (components
                   (computeTeamValue
                      (mkTeamObj "frc971" (Fin 5) (Fin 15.2) (Fin 0.43))))
      = Fin w /\ 0 < w /\ w <= 1000.
Proof.
  split; [unfold Qle; simpl; lia|].
  apply (winFactor_at_most_1000 "frc971" (Fin 5) (Fin 15.2) 0.43).
  unfold Qle; simpl; lia.
Defined.

(** X4.  An [epa] of 0.1 or less, zero and negative ones included, is
    floored to the factor 0.01: with the same [rank] and [win_prob]
    (any number), two such teams get the same raw value and the same
    value. *)
Theorem computeTeamValue_epa_floor
  (key : string) (r p : number) (e1 e2 : Q) :
  e1 <= 0.1 -> e2 <= 0.1 ->
  let v1 := computeTeamValue (mkTeamObj key r (Fin e1) p) in
  let v2 := computeTeamValue (mkTeamObj key r (Fin e2) p) in
  (epaFactor (components v1) =~ Fin 0.01)%js
  /\ (rawValue v1 =~ rawValue v2)%js
  /\ (value v1 =~ value v2)%js.
Proof.
  intros H1 H2. cbv zeta.
  assert (HF : forall e, e <= 0.1 ->
            (Num.Math_max (Fin 0.01) (Fin e / Fin SCALE_EPA) =~ Fin 0.01)%js).
  { intros e He. rewrite div_Fin by Qconst_neq. cbn [Num.Math_max Num.same].
    apply Q.max_l. unfold SCALE_EPA. apply Qle_shift_div_r; lra. }
  unfold computeTeamValue.
  cbn [epa rank win_prob rawValue value components epaFactor].
  split; [apply HF; exact H1|].
  rewrite (HF e1 H1), (HF e2 H2). split; reflexivity.
Qed.

Lemma computeTeamValue_epa_floor_witness :
  - 7.5 <= 0.1 /\ 0 <= 0.1
  /\ (value (computeTeamValue
               (mkTeamObj "frc971" (Fin 5) (Fin (- 7.5)) (Fin 0.43)))
      =~ value (computeTeamValue
                  (mkTeamObj "frc971" (Fin 5) (Fin 0) (Fin 0.43))))%js.
Proof.
  split; [unfold Qle; simpl; lia|]. split; [unfold Qle; simpl; lia|].
  apply (computeTeamValue_epa_floor "frc971" (Fin 5) (Fin 0.43) (- 7.5) 0);
    unfold Qle; simpl; lia.
Defined.

(** ** Further properties of the alliance value *)

Lemma add_NaN_r (x : number) : (x + NaN)%js = NaN.
Proof. now destruct x. Qed.

Lemma mul_NaN_r (x : number) : (x * NaN)%js = NaN.
Proof. now destruct x. Qed.

Lemma add_0_r (x : number) : (x + Fin 0 =~ x)%js.
Proof. destruct x; cbn; auto. apply Qplus_0_r. Qed.

Lemma fold_left_map_fuse {A B C : Type}
  (f : A -> B -> A) (g : C -> B) (l : list C) (a : A) :
  fold_left f (map g l) a = fold_left (fun s x => f s (g x)) l a.
Proof. revert a. induction l as [|x l IH]; intros a; cbn; auto. Qed.

(** The two sums of [computeAllianceValue], as folds over the teams. *)
Lemma allianceValue_fold (l : list TeamObj) :
  allianceValue (computeAllianceValue l)
  = fold_left (fun s t => (s + value (computeTeamValue t))%js) l (Fin 0).
Proof.
  unfold computeAllianceValue; cbn [allianceValue].
  now rewrite fold_left_map_fuse.
Qed.

Lemma allianceEPA_fold (l : list TeamObj) :
  allianceEPA (computeAllianceValue l)
  = fold_left (fun s t => (s + (epa t || Fin 0))%js) l (Fin 0).
Proof.
  unfold computeAllianceValue; cbn [allianceEPA].
  now rewrite fold_left_map_fuse.
Qed.

(** A sum that has become [NaN] stays [NaN]. *)
Lemma fold_add_NaN {A : Type} (g : A -> number) (l : list A) :
  fold_left (fun s t => (s + g t)%js) l NaN = NaN.
Proof. induction l as [|x l IH]; cbn; auto. Qed.

Lemma fold_add_poisoned {A : Type} (g : A -> number) (l : list A)
  (t : A) (a : number) :
  In t l -> g t = NaN -> fold_left (fun s t => (s + g t)%js) l a = NaN.
Proof.
  revert a. induction l as [|x l IH]; intros a Hin Hg; [destruct Hin|].
  cbn [fold_left]. destruct Hin as [-> | Hin].
  - rewrite Hg, add_NaN_r. apply fold_add_NaN.
  - now apply IH.
Qed.

Lemma fold_add_same {A : Type} (g : A -> number) (l : list A)
  (a b : number) :
  (a =~ b)%js ->
  (fold_left (fun s t => (s + g t)%js) l a
   =~ fold_left (fun s t => (s + g t)%js) l b)%js.
Proof.
  revert a b. induction l as [|x l IH]; intros a b H; cbn [fold_left].
  - exact H.
  - apply IH. now rewrite H.
Qed.

(** A team without [epa] or without [win_prob] has no value. *)
Lemma computeTeamValue_missing (t : TeamObj) :
  epa t = NaN \/ win_prob t = NaN ->
  rawValue (computeTeamValue t) = NaN /\ value (computeTeamValue t) = NaN.
Proof.
  destruct t as [k r e p]; cbn [epa win_prob].
  unfold computeTeamValue; cbn [epa rank win_prob rawValue value].
  intros [-> | ->].
  - cbn. split; reflexivity.
  - cbn [Num.add Num.div]. rewrite mul_NaN_r. split; reflexivity.
Qed.

(** X5.  [computeTeamValue] applies no default: a team whose [epa] or
    [win_prob] is absent gets the raw value and the value [NaN], and one
    such team anywhere in an alliance makes [allianceValue] [NaN]. *)
Theorem missing_field_no_value (l : list TeamObj) (t : TeamObj) :
  In t l ->
  epa t = NaN \/ win_prob t = NaN ->
  rawValue (computeTeamValue t) = NaN
  /\ value (computeTeamValue t) = NaN
  /\ allianceValue (computeAllianceValue l) = NaN.
Proof.
  intros Hin Hm.
  destruct (computeTeamValue_missing t Hm) as [Hr Hv].
  split; [exact Hr|]. split; [exact Hv|].
  rewrite allianceValue_fold.
  exact (fold_add_poisoned (fun t => value (computeTeamValue t)) l t _
           Hin Hv).
Qed.

Lemma missing_field_no_value_witness :
  let t := mkTeamObj "frc148" (Fin 6) NaN (Fin 0.41) in
  In t (example_red ++ [t])
  /\ (epa t = NaN \/ win_prob t = NaN)
  /\ allianceValue (computeAllianceValue (example_red ++ [t])) = NaN.
Proof.
  cbv zeta. split; [cbn; tauto|]. split; [left; reflexivity|].
  apply (missing_field_no_value
           (example_red ++ [mkTeamObj "frc148" (Fin 6) NaN (Fin 0.41)])
           (mkTeamObj "frc148" (Fin 6) NaN (Fin 0.41))).
  - cbn; tauto.
  - left; reflexivity.
Defined.

(** X6.  In [allianceEPA] an absent [epa] counts as 0: a team without
    [epa], or with [epa] 0, can be taken out of the alliance without
    changing the total. *)
Theorem allianceEPA_missing_is_zero (l1 l2 : list TeamObj) (t : TeamObj) :
  epa t = NaN \/ epa t = Fin 0 ->
  (allianceEPA (computeAllianceValue (l1 ++ t :: l2))
   =~ allianceEPA (computeAllianceValue (l1 ++ l2)))%js.
Proof.
  intros Ht. rewrite !allianceEPA_fold, !fold_left_app. cbn [fold_left].
  apply (fold_add_same (fun t => (epa t || Fin 0)%js)).
  assert (Hz : (epa t || Fin 0)%js = Fin 0)
    by (destruct Ht as [-> | ->]; reflexivity).
  rewrite Hz. apply add_0_r.
Qed.

Lemma allianceEPA_missing_is_zero_witness :
  let t := mkTeamObj "frc148" (Fin 6) NaN (Fin 0.41) in
  (epa t = NaN \/ epa t = Fin 0)
  /\ (allianceEPA (computeAllianceValue (example_red ++ t :: example_blue))
      =~ allianceEPA (computeAllianceValue (example_red ++ example_blue)))%js.
Proof.
  cbv zeta. split; [left; reflexivity|].
  apply (allianceEPA_missing_is_zero example_red example_blue
           (mkTeamObj "frc148" (Fin 6) NaN (Fin 0.41))).
  left; reflexivity.
Defined.

(** The value of a numeric team is a rational, at least 1. *)
Lemma numeric_team_value (t : TeamObj) :
  numeric_team t ->
  exists v, value (computeTeamValue t) = Fin v /\ 1 <= v.
Proof.
  destruct t as [k r [e| | |] [p| | |]]; unfold numeric_team;
    cbn [epa win_prob]; try contradiction.
  intros Hp.
  destruct (getRankMultiplier_range r) as [m [Hm _]].
  rewrite (computeTeamValue_regular k r e p m Hm)
    by (intros H; apply Hp; lra).
  cbn [value]. eexists. split; [reflexivity|].
  eapply Qle_trans; [|apply Q.le_max_l]. Qconst.
Qed.

(** The [epa] of a numeric team adds a rational to the EPA total. *)
Lemma numeric_team_epa (t : TeamObj) :
  numeric_team t -> exists e, (epa t || Fin 0)%js = Fin e.
Proof.
  destruct t as [k r [e| | |] [p| | |]]; unfold numeric_team;
    cbn [epa win_prob]; try contradiction.
  intros _. unfold Num.or_else; cbn [Num.falsy].
  destruct (Qeq_bool e 0); eexists; reflexivity.
Qed.

Lemma fold_values_numeric (l : list TeamObj) (a : Q) :
  Forall numeric_team l ->
  exists v,
    fold_left (fun s t => (s + value (computeTeamValue t))%js) l (Fin a)
    = Fin v
    /\ a + inject_Z (Z.of_nat (List.length l)) <= v.
Proof.
  revert a. induction l as [|t l IH]; intros a Hl.
  - exists a. split; [reflexivity|].
    cbn [List.length Z.of_nat]. change (inject_Z 0) with 0. lra.
  - inversion Hl as [|? ? Ht Hl']; subst.
    destruct (numeric_team_value t Ht) as [v [Hv Hv1]].
    cbn [fold_left]. rewrite Hv. cbn [Num.add].
    destruct (IH (a + v) Hl') as [x [Hx Hle]].
    exists x. split; [exact Hx|].
    cbn [List.length]. rewrite Nat2Z.inj_succ, <- Z.add_1_r, inject_Z_plus.
    change (inject_Z 1) with 1. lra.
Qed.

Lemma fold_epa_numeric (l : list TeamObj) (a : Q) :
  Forall numeric_team l ->
  exists e,
    fold_left (fun s t => (s + (epa t || Fin 0))%js) l (Fin a) = Fin e.
Proof.
  revert a. induction l as [|t l IH]; intros a Hl.
  - exists a. reflexivity.
  - inversion Hl as [|? ? Ht Hl']; subst.
    destruct (numeric_team_epa t Ht) as [e He].
    cbn [fold_left]. rewrite He. cbn [Num.add]. apply IH, Hl'.
Qed.

(** An alliance of numeric teams has a numeric value, at least the number
    of its teams, and a numeric EPA total. *)
Lemma computeAllianceValue_numeric (l : list TeamObj) :
  Forall numeric_team l ->
  exists v e,
    allianceValue (computeAllianceValue l) = Fin v
    /\ allianceEPA (computeAllianceValue l) = Fin e
    /\ inject_Z (Z.of_nat (List.length l)) <= v.
Proof.
  intros Hl.
  destruct (fold_values_numeric l 0 Hl) as [v [Hv Hle]].
  destruct (fold_epa_numeric l 0 Hl) as [e He].
  exists v, e. rewrite allianceValue_fold, allianceEPA_fold.
  split; [exact Hv|]. split; [exact He|]. lra.
Qed.

(** X7.  When every team of an alliance has a numeric [epa] and a numeric
    [win_prob] other than [- EPS], [allianceValue] is not [NaN] and is at
    least the number of teams, so it is positive as soon as the alliance
    is not empty; [teams] keeps the input teams in their order. *)
Theorem allianceValue_at_least_count (l : list TeamObj) :
  Forall numeric_team l ->
  (Fin (inject_Z (Z.of_nat (List.length l)))
   <= allianceValue (computeAllianceValue l))%js
  /\ (l <> [] -> (Fin 0 < allianceValue (computeAllianceValue l))%js)
  /\ map team (teams (computeAllianceValue l)) = l.
Proof.
  intros Hl.
  destruct (computeAllianceValue_numeric l Hl) as (v & e & Hv & _ & Hle).
  rewrite Hv. cbn [Num.le Num.lt].
  split; [exact Hle|]. split.
  - intros Hne. destruct l as [|t l]; [congruence|].
    cbn [List.length] in Hle.
    rewrite Nat2Z.inj_succ, <- Z.add_1_r, inject_Z_plus in Hle.
    change (inject_Z 1) with 1 in Hle.
    assert (0 <= inject_Z (Z.of_nat (List.length l)))
      by (change 0 with (inject_Z 0); rewrite <- Zle_Qle; lia).
    lra.
  - unfold computeAllianceValue; cbn [teams].
    rewrite map_map. cbn [team]. apply map_id.
Qed.

Lemma allianceValue_at_least_count_witness :
  Forall numeric_team example_red
  /\ (Fin (inject_Z (Z.of_nat (List.length example_red)))
      <= allianceValue (computeAllianceValue example_red))%js.
Proof.
  assert (H : Forall numeric_team example_red).
  { repeat constructor; unfold numeric_team; cbn;
      intro H; vm_compute in H; discriminate H. }
  split; [exact H|].
  apply (allianceValue_at_least_count example_red H).
Defined.

(** ** Further properties of the suggested line *)

(** The floor is the only integer just below. *)
Lemma Qfloor_unique (k : Z) (y : Q) :
  inject_Z k <= y -> y < inject_Z (k + 1) -> Qfloor y = k.
Proof.
  intros Hl Hu.
  pose proof (Qfloor_le y) as H1. pose proof (Qlt_floor y) as H2.
  assert (A : (Qfloor y < k + 1)%Z) by (rewrite Zlt_Qlt; lra).
  assert (B : (k < Qfloor y + 1)%Z) by (rewrite Zlt_Qlt; lra).
  lia.
Qed.

Lemma round_bounds (x : Q) :
  inject_Z (Num.round x) <= x + (1 # 2)
  /\ x + (1 # 2) < inject_Z (Num.round x) + 1.
Proof.
  unfold Num.round. split; [apply Qfloor_le|].
  pose proof (Qlt_floor (x + (1 # 2))) as H.
  rewrite inject_Z_plus in H. exact H.
Qed.

(** Rounding commutes with adding an integer. *)
Lemma round_add_Z (n : Z) (x : Q) :
  Num.round (inject_Z n + x) = (n + Num.round x)%Z.
Proof.
  destruct (round_bounds x) as [Hl Hu].
  unfold Num.round at 1. apply Qfloor_unique.
  - rewrite inject_Z_plus. lra.
  - rewrite !inject_Z_plus. change (inject_Z 1) with 1. lra.
Qed.

Section finite_lines.

Variables (tr tb : list ScoredTeam) (vr vb er eb : Q).

Lemma redLine_Fin :
  redLine (mkAlliance tr (Fin vr) (Fin er)) (mkAlliance tb (Fin vb) (Fin eb))
  = let bl := inject_Z (Num.round ((er + eb) / 2 * 10)) / 10 in
    Fin (inject_Z
           (Num.round ((bl + (vr / nz (vr + vb) - 0.5) * 0.2 * bl) * 10))
         / 10).
Proof.
  unfold redLine. rewrite redDelta_Fin, baseLine_Fin. cbn [Num.add].
  apply round1_Fin.
Qed.

Lemma blueLine_Fin :
  blueLine (mkAlliance tr (Fin vr) (Fin er)) (mkAlliance tb (Fin vb) (Fin eb))
  = let bl := inject_Z (Num.round ((er + eb) / 2 * 10)) / 10 in
    Fin (inject_Z
           (Num.round ((bl + (vb / nz (vr + vb) - 0.5) * 0.2 * bl) * 10))
         / 10).
Proof.
  unfold blueLine. rewrite blueDelta_Fin, baseLine_Fin. cbn [Num.add].
  apply round1_Fin.
Qed.

Lemma matchLine_Fin :
  matchLine (mkAlliance tr (Fin vr) (Fin er))
            (mkAlliance tb (Fin vb) (Fin eb))
  = let bl := inject_Z (Num.round ((er + eb) / 2 * 10)) / 10 in
    let lr := inject_Z
                (Num.round ((bl + (vr / nz (vr + vb) - 0.5) * 0.2 * bl) * 10))
              / 10 in
    let lb := inject_Z
                (Num.round ((bl + (vb / nz (vr + vb) - 0.5) * 0.2 * bl) * 10))
              / 10 in
    Fin (inject_Z (Num.round ((lr + lb) / 2 * 10)) / 10).
Proof.
  unfold matchLine. rewrite redLine_Fin, blueLine_Fin. cbv zeta.
  cbn [Num.add]. rewrite (div_Fin _ 2) by Qconst_neq.
  apply round1_Fin.
Qed.

Lemma payoutMultiplier_red_Fin :
  Side.payoutMultiplier
    (PerAlliance.red
       (Suggestion.perAlliance
          (suggestOverUnder (mkAlliance tr (Fin vr) (Fin er))
                            (mkAlliance tb (Fin vb) (Fin eb)))))
  = Fin (inject_Z
           (Num.round
              (Qmax 1.01 (1 + (1 - vr / nz ((vr + vb) / 2)) * 0.5) * 100))
         / 100).
Proof.
  unfold suggestOverUnder.
  cbn [Suggestion.perAlliance PerAlliance.red Side.payoutMultiplier].
  rewrite redPayout_Fin. cbn [Num.mul Num.Math_round].
  now rewrite div_Fin by Qconst_neq.
Qed.

Lemma payoutMultiplier_blue_Fin :
  Side.payoutMultiplier
    (PerAlliance.blue
       (Suggestion.perAlliance
          (suggestOverUnder (mkAlliance tr (Fin vr) (Fin er))
                            (mkAlliance tb (Fin vb) (Fin eb)))))
  = Fin (inject_Z
           (Num.round
              (Qmax 1.01 (1 + (1 - vb / nz ((vr + vb) / 2)) * 0.5) * 100))
         / 100).
Proof.
  unfold suggestOverUnder.
  cbn [Suggestion.perAlliance PerAlliance.blue Side.payoutMultiplier].
  rewrite bluePayout_Fin. cbn [Num.mul Num.Math_round].
  now rewrite div_Fin by Qconst_neq.
Qed.

End finite_lines.

(** The payout of a side, from the quotient of its value by the average:
    1.01 when the quotient is at least 1, at most 1.5 when it is not
    negative. *)
Lemma payout_of_quotient (q : Q) :
  let P := inject_Z (Num.round (Qmax 1.01 (1 + (1 - q) * 0.5) * 100)) / 100 in
  1.01 <= P /\ (1 <= q -> P == 1.01) /\ (0 <= q -> P <= 1.5)
  /\ (q == 0 -> P == 1.5).
Proof.
  cbv zeta. split; [apply round2_floor, Q.le_max_l|]. split; [|split].
  - intros Hq.
    assert (E : Qmax 1.01 (1 + (1 - q) * 0.5) * 100 == inject_Z 101).
    { rewrite Q.max_l by lra. reflexivity. }
    rewrite (round_comp _ _ E), round_Z. reflexivity.
  - intros Hq.
    assert (E : Qmax 1.01 (1 + (1 - q) * 0.5) * 100 <= inject_Z 150).
    { change (inject_Z 150) with 150.
      assert (Qmax 1.01 (1 + (1 - q) * 0.5) <= 1.5)
        by (apply Q.max_lub; lra).
      lra. }
    apply round_mono in E. rewrite round_Z in E.
    apply Qle_shift_div_r; [Qconst|].
    rewrite Zle_Qle in E. change (inject_Z 150) with 150 in E. lra.
  - intros Hq.
    assert (E : Qmax 1.01 (1 + (1 - q) * 0.5) * 100 == inject_Z 150).
    { rewrite Q.max_r by lra. rewrite Hq. reflexivity. }
    rewrite (round_comp _ _ E), round_Z. reflexivity.
Qed.

(** X9.  With numeric fields, values that are not negative and whose
    total is positive and does not exceed the largest finite binary64
    number, and EPA totals whose sum lies between 0 and [EPA_BOUND], the
    side whose value is not the smaller gets a line at or above [baseLine]
    and the other side a line at or below it. *)
Theorem higher_value_higher_line
  (tr tb : list ScoredTeam) (vr vb er eb : Q) :
  let A := mkAlliance tr (Fin vr) (Fin er) in
  let B := mkAlliance tb (Fin vb) (Fin eb) in
  0 <= vb -> vb <= vr -> 0 < vr + vb -> vr + vb <= MAX_VALUE ->
  0 <= er + eb -> er + eb <= EPA_BOUND ->
  (blueLine A B <= baseLine A B)%js /\ (baseLine A B <= redLine A B)%js.
Proof.
  cbv zeta. intros _ Hv Hpos _ He _.
  rewrite redLine_Fin, blueLine_Fin, baseLine_Fin. cbv zeta.
  set (n := Num.round ((er + eb) / 2 * 10)).
  cbn [Num.le].
  assert (Hnz : nz (vr + vb) = vr + vb) by (apply nz_id; lra).
  rewrite Hnz.
  assert (Hn : 0 <= inject_Z n).
  { assert (H0 : (0 <= n)%Z).
    { rewrite <- (round_Z 0). apply round_mono.
      change (inject_Z 0) with 0.
      assert (E : (er + eb) / 2 * 10 == 5 * (er + eb)) by field.
      lra. }
    change 0 with (inject_Z 0). now rewrite <- Zle_Qle. }
  assert (Hsr : 0.5 <= vr / (vr + vb)) by (apply Qle_shift_div_l; lra).
  assert (Hsb : vb / (vr + vb) <= 0.5) by (apply Qle_shift_div_r; lra).
  set (sr := vr / (vr + vb)) in *. set (sb := vb / (vr + vb)) in *.
  assert (Er : (inject_Z n / 10 + (sr - 0.5) * 0.2 * (inject_Z n / 10)) * 10
               == inject_Z n + (sr - 0.5) * 0.2 * inject_Z n) by field.
  assert (Eb : (inject_Z n / 10 + (sb - 0.5) * 0.2 * (inject_Z n / 10)) * 10
               == inject_Z n + (sb - 0.5) * 0.2 * inject_Z n) by field.
  rewrite (round_comp _ _ Er), (round_comp _ _ Eb), !round_add_Z.
  assert (Hr : (0 <= Num.round ((sr - 0.5) * 0.2 * inject_Z n))%Z).
  { apply Z.le_trans with (Num.round (inject_Z 0));
      [rewrite round_Z; lia|].
    apply round_mono. change (inject_Z 0) with 0.
    apply Qmult_le_0_compat; [|exact Hn].
    apply Qmult_le_0_compat; lra. }
  assert (Hb : (Num.round ((sb - 0.5) * 0.2 * inject_Z n) <= 0)%Z).
  { apply Z.le_trans with (Num.round (inject_Z 0));
      [|rewrite round_Z; lia].
    apply round_mono. change (inject_Z 0) with 0.
    assert (0 <= (0.5 - sb) * 0.2 * inject_Z n).
    { apply Qmult_le_0_compat; [|exact Hn].
      apply Qmult_le_0_compat; lra. }
    lra. }
  split.
  - apply Qmult_le_compat_r; [|Qconst]. rewrite <- Zle_Qle. lia.
  - apply Qmult_le_compat_r; [|Qconst]. rewrite <- Zle_Qle. lia.
Qed.

Lemma higher_value_higher_line_witness :
  let A := mkAlliance [] (Fin 1000) (Fin 82.1) in
  let B := mkAlliance [] (Fin 1) (Fin 75.0) in
  (0 <= 1 /\ 1 <= 1000 /\ 0 < 1000 + 1 /\ 1000 + 1 <= MAX_VALUE
   /\ 0 <= 82.1 + 75.0 /\ 82.1 + 75.0 <= EPA_BOUND)
  /\ (blueLine A B <= baseLine A B)%js /\ (baseLine A B <= redLine A B)%js.
Proof.
  cbv zeta. split.
  - repeat split; try reflexivity; vm_compute; discriminate.
  - apply (higher_value_higher_line [] [] 1000 1 82.1 75.0);
      try reflexivity; vm_compute; discriminate.
Defined.

Lemma nz_zero (t : Q) : t == 0 -> nz t = 1.
Proof. intros H. unfold nz. now rewrite (Qeq_bool_true _ _ H). Qed.

(** X11.  With numeric values whose total is at least 1 and does not
    exceed the largest finite binary64 number, the side whose value is not
    the smaller is paid the floor 1.01, never more than the other side;
    when the smaller value is not negative the other side is paid at most
    1.5. *)
Theorem favourite_paid_floor
  (tr tb : list ScoredTeam) (vr vb er eb : Q) :
  1 <= vr + vb -> vr + vb <= MAX_VALUE -> vb <= vr ->
  let s := suggestOverUnder (mkAlliance tr (Fin vr) (Fin er))
                            (mkAlliance tb (Fin vb) (Fin eb)) in
  let red := PerAlliance.red (Suggestion.perAlliance s) in
  let blue := PerAlliance.blue (Suggestion.perAlliance s) in
  (Side.payoutMultiplier red =~ Fin 1.01)%js
  /\ (Side.payoutMultiplier red <= Side.payoutMultiplier blue)%js
  /\ (0 <= vb -> (Side.payoutMultiplier blue <= Fin 1.5)%js).
Proof.
  intros Hpos _ Hv. cbv zeta.
  rewrite payoutMultiplier_red_Fin, payoutMultiplier_blue_Fin.
  assert (Ha : (vr + vb) / 2 * 2 == vr + vb) by field.
  assert (Hne : ~ (vr + vb) / 2 == 0) by (intros H; rewrite H in Ha; lra).
  rewrite (nz_id _ Hne). cbn [Num.same Num.le].
  set (avg := (vr + vb) / 2) in *.
  assert (Hq : 1 <= vr / avg) by (apply Qle_shift_div_l; lra).
  destruct (payout_of_quotient (vr / avg)) as (_ & Hr & _ & _).
  destruct (payout_of_quotient (vb / avg)) as (Hb1 & _ & Hb2 & _).
  cbv zeta in Hr, Hb1, Hb2.
  split; [exact (Hr Hq)|]. split.
  - rewrite (Hr Hq). exact Hb1.
  - intros Hvb. apply Hb2. apply Qle_shift_div_l; lra.
Qed.

Lemma favourite_paid_floor_witness :
  1 <= 1000 + 1 /\ 1000 + 1 <= MAX_VALUE /\ 1 <= 1000
  /\ (Side.payoutMultiplier
        (PerAlliance.red
           (Suggestion.perAlliance
              (suggestOverUnder (mkAlliance [] (Fin 1000) (Fin 82.1))
                                (mkAlliance [] (Fin 1) (Fin 75.0)))))
      =~ Fin 1.01)%js.
Proof.
  split; [vm_compute; discriminate|]. split; [vm_compute; discriminate|].
  split; [vm_compute; discriminate|].
  apply (favourite_paid_floor [] [] 1000 1 82.1 75.0);
    vm_compute; discriminate.
Defined.

(** X12.  The zero guard: when both alliance values are 0, the divisors
    [totalValue || 1] and [avgValue] are 1, both shares are 0 and not one
    half, so both lines and [matchLine] are [baseLine] lowered by a tenth
    and rounded, and both payout multipliers are 1.5. *)
Theorem zero_total_guard
  (tr tb : list ScoredTeam) (vr vb er eb : Q) :
  vr == 0 -> vb == 0 ->
  let A := mkAlliance tr (Fin vr) (Fin er) in
  let B := mkAlliance tb (Fin vb) (Fin eb) in
  let s := suggestOverUnder A B in
  let red := PerAlliance.red (Suggestion.perAlliance s) in
  let blue := PerAlliance.blue (Suggestion.perAlliance s) in
  (redShare A B =~ Fin 0)%js /\ (blueShare A B =~ Fin 0)%js
  /\ (Side.line red
      =~ Num.Math_round (Fin 0.9 * Suggestion.baseLine s * Fin 10)
         / Fin 10)%js
  /\ (Side.line blue =~ Side.line red)%js
  /\ (Suggestion.matchLine s =~ Side.line red)%js
  /\ (Side.payoutMultiplier red =~ Fin 1.5)%js
  /\ (Side.payoutMultiplier blue =~ Fin 1.5)%js.
Proof.
  intros Hr Hb. cbv zeta.
  rewrite payoutMultiplier_red_Fin, payoutMultiplier_blue_Fin.
  unfold suggestOverUnder.
  cbn [Suggestion.perAlliance Suggestion.baseLine Suggestion.matchLine
       PerAlliance.red PerAlliance.blue Side.line].
  rewrite redShare_Fin, blueShare_Fin, matchLine_Fin, redLine_Fin,
    blueLine_Fin, baseLine_Fin.
  cbv zeta. set (n := Num.round ((er + eb) / 2 * 10)).
  assert (Hs : vr + vb == 0) by (rewrite Hr, Hb; reflexivity).
  assert (Hh : (vr + vb) / 2 == 0) by (rewrite Hs; reflexivity).
  rewrite (nz_zero _ Hs), (nz_zero _ Hh).
  cbn [Num.mul Num.Math_round]. rewrite div_Fin by Qconst_neq.
  cbn [Num.same].
  set (k := Num.round (0.9 * (inject_Z n / 10) * 10)).
  assert (Er : Num.round
                 ((inject_Z n / 10
                   + (vr / 1 - 0.5) * 0.2 * (inject_Z n / 10)) * 10) = k).
  { apply round_comp. rewrite Hr. field. }
  assert (Eb : Num.round
                 ((inject_Z n / 10
                   + (vb / 1 - 0.5) * 0.2 * (inject_Z n / 10)) * 10) = k).
  { apply round_comp. rewrite Hb. field. }
  rewrite Er, Eb.
  assert (Em : Num.round ((inject_Z k / 10 + inject_Z k / 10) / 2 * 10) = k).
  { apply round1_fixed. field. }
  rewrite Em.
  destruct (payout_of_quotient (vr / 1)) as (_ & _ & _ & Pr).
  destruct (payout_of_quotient (vb / 1)) as (_ & _ & _ & Pb).
  cbv zeta in Pr, Pb.
  split; [rewrite Hr; reflexivity|]. split; [rewrite Hb; reflexivity|].
  split; [reflexivity|]. split; [reflexivity|]. split; [reflexivity|].
  split.
  - apply Pr. rewrite Hr. reflexivity.
  - apply Pb. rewrite Hb. reflexivity.
Qed.

Lemma zero_total_guard_witness :
  0 == 0
  /\ (Side.payoutMultiplier
        (PerAlliance.red
           (Suggestion.perAlliance
              (suggestOverUnder (computeAllianceValue [])
                                (computeAllianceValue []))))
      =~ Fin 1.5)%js.
Proof.
  split; [reflexivity|].
  apply (zero_total_guard [] [] 0 0 0 0); reflexivity.
Defined.

(** ** The whole computation, from teams to suggestion *)

Lemma nz_pos (t : Q) : 0 <= t -> 0 < nz t.
Proof.
  intros H. unfold nz. destruct (Qeq_bool t 0) eqn:E; [reflexivity|].
  assert (~ t == 0) by (intros H0; apply Qeq_bool_iff in H0; congruence).
  lra.
Qed.

(** Two values that are not negative are both paid between 1.01 and
    1.5. *)
Lemma payouts_bounded (tr tb : list ScoredTeam) (vr vb er eb : Q) :
  0 <= vr -> 0 <= vb ->
  let s := suggestOverUnder (mkAlliance tr (Fin vr) (Fin er))
                            (mkAlliance tb (Fin vb) (Fin eb)) in
  exists pr pb : Q,
    Side.payoutMultiplier (PerAlliance.red (Suggestion.perAlliance s))
    = Fin pr
    /\ Side.payoutMultiplier (PerAlliance.blue (Suggestion.perAlliance s))
       = Fin pb
    /\ 1.01 <= pr <= 1.5 /\ 1.01 <= pb <= 1.5.
Proof.
  intros Hr Hb. cbv zeta.
  rewrite payoutMultiplier_red_Fin, payoutMultiplier_blue_Fin.
  assert (Ha : 0 < nz ((vr + vb) / 2)).
  { apply nz_pos. apply Qle_shift_div_l; lra. }
  set (avg := nz ((vr + vb) / 2)) in *.
  destruct (payout_of_quotient (vr / avg)) as (R1 & _ & R2 & _).
  destruct (payout_of_quotient (vb / avg)) as (B1 & _ & B2 & _).
  cbv zeta in R1, R2, B1, B2.
  do 2 eexists. split; [reflexivity|]. split; [reflexivity|].
  repeat split; try assumption.
  - apply R2. apply Qle_shift_div_l; lra.
  - apply B2. apply Qle_shift_div_l; lra.
Qed.

(** From two arrays of numeric teams, every number of the suggestion is
    finite and both payout multipliers lie between 1.01 and 1.5. *)
Lemma pipeline_numeric (r b : list TeamObj) :
  Forall numeric_team r -> Forall numeric_team b ->
  let s := suggestOverUnder (computeAllianceValue r)
                            (computeAllianceValue b) in
  exists bl ml lr lb pr pb : Q,
    Suggestion.baseLine s = Fin bl
    /\ Suggestion.matchLine s = Fin ml
    /\ Side.line (PerAlliance.red (Suggestion.perAlliance s)) = Fin lr
    /\ Side.line (PerAlliance.blue (Suggestion.perAlliance s)) = Fin lb
    /\ Side.payoutMultiplier (PerAlliance.red (Suggestion.perAlliance s))
       = Fin pr
    /\ Side.payoutMultiplier (PerAlliance.blue (Suggestion.perAlliance s))
       = Fin pb
    /\ 1.01 <= pr <= 1.5 /\ 1.01 <= pb <= 1.5.
Proof.
  intros Hr Hb. cbv zeta.
  destruct (computeAllianceValue_numeric r Hr) as (vr & er & Hvr & Her & Hcr).
  destruct (computeAllianceValue_numeric b Hb) as (vb & eb & Hvb & Heb & Hcb).
  destruct (computeAllianceValue r) as [tr ar xr].
  destruct (computeAllianceValue b) as [tb ab xb].
  cbn [allianceValue allianceEPA] in Hvr, Her, Hvb, Heb. subst.
  assert (H0r : 0 <= vr).
  { eapply Qle_trans; [|exact Hcr].
    change 0 with (inject_Z 0). rewrite <- Zle_Qle. lia. }
  assert (H0b : 0 <= vb).
  { eapply Qle_trans; [|exact Hcb].
    change 0 with (inject_Z 0). rewrite <- Zle_Qle. lia. }
  destruct (payouts_bounded tr tb vr vb er eb H0r H0b)
    as (pr & pb & Hpr & Hpb & Br & Bb).
  cbv zeta in Hpr, Hpb.
  do 4 eexists. exists pr, pb.
  unfold suggestOverUnder at 1 2 3 4.
  cbn [Suggestion.baseLine Suggestion.matchLine Suggestion.perAlliance
       PerAlliance.red PerAlliance.blue Side.line].
  rewrite baseLine_Fin, matchLine_Fin, redLine_Fin, blueLine_Fin.
  cbv zeta.
  do 4 (split; [reflexivity|]).
  split; [exact Hpr|]. split; [exact Hpb|]. split; assumption.
Qed.

Lemma team_entries_Some (l : list (option TeamObj)) (ts : list TeamObj) :
  team_entries l = Some ts <-> l = map Some ts.
Proof.
  revert ts. induction l as [|[t|] l IH]; intros ts; cbn.
  - split.
    + intros H. injection H as <-. reflexivity.
    + intros H. destruct ts; [reflexivity | discriminate].
  - destruct (team_entries l) as [ts'|] eqn:E.
    + split.
      * intros H. injection H as <-. cbn. f_equal. now apply IH.
      * intros H. destruct ts as [|t0 ts0]; [discriminate|].
        cbn in H. injection H as -> H. apply IH in H.
        injection H as ->. reflexivity.
    + split; [discriminate|].
      intros H. destruct ts as [|t0 ts0]; [discriminate|].
      cbn in H. injection H as -> H. apply IH in H. discriminate.
  - split; [discriminate|]. intros H. destruct ts; discriminate.
Qed.

(** X13.  What each answer of [POST /predict] means.  Status 400 is sent
    exactly when [alliances], [alliances.red] or [alliances.blue] is
    falsy; an empty array is not.  Status 200 is sent only when both are
    arrays without a [null] entry, and its body is then [match_id] as
    received, [computeAllianceValue] of each array and
    [suggestOverUnder] of the two results.  Everything else, a non-array
    or a [null] entry, ends in the [catch] with status 500. *)
Theorem post_predict_answers (body : PredictBody.t) :
  match post_predict body with
  | Predict400 e =>
      e = "alliances.red and alliances.blue required"%string
      /\ (PredictBody.alliances body = None
          \/ exists a, PredictBody.alliances body = Some a
                       /\ (Alliances.red a = Falsy
                           \/ Alliances.blue a = Falsy))
  | Predict500 =>
      exists a, PredictBody.alliances body = Some a
                /\ Alliances.red a <> Falsy /\ Alliances.blue a <> Falsy
                /\ (computeAllianceValue_field (Alliances.red a) = None
                    \/ computeAllianceValue_field (Alliances.blue a) = None)
  | Predict200 ok =>
      exists a r b,
        PredictBody.alliances body = Some a
        /\ Alliances.red a = TeamArray (map Some r)
        /\ Alliances.blue a = TeamArray (map Some b)
        /\ PredictOk.match_id ok = PredictBody.match_id body
        /\ PredictOk.red ok = computeAllianceValue r
        /\ PredictOk.blue ok = computeAllianceValue b
        /\ PredictOk.suggestion ok
           = suggestOverUnder (computeAllianceValue r)
                              (computeAllianceValue b)
  end.
Proof.
  destruct body as [mid [[fr fb]|]]; unfold post_predict;
    cbn [PredictBody.alliances PredictBody.match_id
         Alliances.red Alliances.blue];
    [|split; [reflexivity | left; reflexivity]].
  destruct fr as [| |lr]; destruct fb as [| |lb];
    try (split; [reflexivity|]; right; eexists; split; [reflexivity|];
         cbn; tauto);
    try (cbn; eexists; split; [reflexivity|]; cbn;
         repeat split; try discriminate; tauto).
  - (* an array against a non-array *)
    cbn [computeAllianceValue_field option_map].
    destruct (team_entries lr) as [r|] eqn:Er; cbn [option_map];
      eexists; split; try reflexivity; cbn;
      repeat split; try discriminate; rewrite ?Er; cbn; tauto.
  - (* two arrays *)
    cbn [computeAllianceValue_field].
    destruct (team_entries lr) as [r|] eqn:Er; cbn [option_map].
    + destruct (team_entries lb) as [b|] eqn:Eb; cbn [option_map].
      * apply team_entries_Some in Er, Eb. subst.
        exists {| Alliances.red := TeamArray (map Some r);
                  Alliances.blue := TeamArray (map Some b) |}, r, b.
        cbn. repeat split; reflexivity.
      * eexists; split; [reflexivity|]. cbn [Alliances.red Alliances.blue].
        repeat split; try discriminate.
        right. cbn. rewrite Eb. reflexivity.
    + eexists; split; [reflexivity|]. cbn [Alliances.red Alliances.blue].
      repeat split; try discriminate.
      left. cbn. rewrite Er. reflexivity.
Qed.

(** An ordinary team is a numeric one. *)
Lemma ordinary_team_numeric (t : TeamObj) :
  ordinary_team t -> numeric_team t.
Proof.
  destruct t as [k r [e| | |] [p| | |]];
    unfold ordinary_team, numeric_team; cbn [epa win_prob];
    try contradiction.
  intros [_ Hp]. unfold EPS. lra.
Qed.

(** X14.  A request whose two alliances are arrays of teams with an [epa]
    of at most a million in absolute value and a [win_prob] that is not
    negative (empty arrays included) is answered with status 200; every
    line of the suggestion is a finite number and both payout multipliers
    lie between 1.01 and 1.5. *)
Theorem post_predict_numeric (mid : jsval) (r b : list TeamObj) :
  Forall ordinary_team r -> Forall ordinary_team b ->
  exists ok bl ml lr lb pr pb,
    post_predict
      {| PredictBody.match_id := mid;
         PredictBody.alliances :=
           Some {| Alliances.red := TeamArray (map Some r);
                   Alliances.blue := TeamArray (map Some b) |} |}
    = Predict200 ok
    /\ Suggestion.baseLine (PredictOk.suggestion ok) = Fin bl
    /\ Suggestion.matchLine (PredictOk.suggestion ok) = Fin ml
    /\ Side.line (PerAlliance.red
                    (Suggestion.perAlliance (PredictOk.suggestion ok)))
       = Fin lr
    /\ Side.line (PerAlliance.blue
                    (Suggestion.perAlliance (PredictOk.suggestion ok)))
       = Fin lb
    /\ Side.payoutMultiplier
         (PerAlliance.red
            (Suggestion.perAlliance (PredictOk.suggestion ok)))
       = Fin pr
    /\ Side.payoutMultiplier
         (PerAlliance.blue
            (Suggestion.perAlliance (PredictOk.suggestion ok)))
       = Fin pb
    /\ 1.01 <= pr <= 1.5 /\ 1.01 <= pb <= 1.5.
Proof.
  intros Hr Hb.
  apply (Forall_impl _ ordinary_team_numeric) in Hr, Hb.
  destruct (pipeline_numeric r b Hr Hb)
    as (bl & ml & lr & lb & pr & pb & H).
  cbv zeta in H.
  eexists. exists bl, ml, lr, lb, pr, pb.
  split.
  - unfold post_predict.
    cbn [PredictBody.alliances PredictBody.match_id
         Alliances.red Alliances.blue computeAllianceValue_field].
    rewrite (proj2 (team_entries_Some (map Some r) r) eq_refl).
    rewrite (proj2 (team_entries_Some (map Some b) b) eq_refl).
    reflexivity.
  - exact H.
Qed.

Lemma ordinary_examples :
  Forall ordinary_team example_red /\ Forall ordinary_team example_blue.
Proof.
  split; repeat constructor; vm_compute; discriminate.
Defined.

Lemma post_predict_numeric_witness :
  (Forall ordinary_team example_red /\ Forall ordinary_team example_blue)
  /\ exists ok,
      post_predict
        {| PredictBody.match_id := JStr "qm1";
           PredictBody.alliances :=
             Some {| Alliances.red := TeamArray (map Some example_red);
                     Alliances.blue := TeamArray (map Some example_blue) |}
        |}
      = Predict200 ok.
Proof.
  split; [exact ordinary_examples|].
  destruct (post_predict_numeric (JStr "qm1") example_red example_blue
              (proj1 ordinary_examples) (proj2 ordinary_examples))
    as (ok & _ & _ & _ & _ & _ & _ & H & _).
  exists ok. exact H.
Defined.

(** ** The bet store *)

Lemma post_bet_cases (now : string) (body : BetBody.t) (bets : list Bet.t) :
  post_bet now body bets = (Bet400 "missing fields", bets)
  \/ exists bet,
      post_bet now body bets = (BetOk bet, (bets ++ [bet])%list)
      /\ Bet.id bet = (Z.of_nat (List.length bets) + 1)%Z.
Proof.
  unfold post_bet.
  destruct (negb (truthy (BetBody.user body))
            || negb (truthy (BetBody.match_id body))
            || negb (truthy (BetBody.alliance body))
            || negb (truthy (BetBody.amount body))
            || negb (truthy (BetBody.type body)))%bool.
  - left; reflexivity.
  - right. eexists. split; reflexivity.
Qed.

Lemma ids_after_post (now : string) (body : BetBody.t) (bets : list Bet.t) :
  map Bet.id bets = map Z.of_nat (seq 1 (List.length bets)) ->
  map Bet.id (snd (post_bet now body bets))
  = map Z.of_nat (seq 1 (List.length (snd (post_bet now body bets)))).
Proof.
  intros H.
  destruct (post_bet_cases now body bets) as [E | (bet & E & Hid)];
    rewrite E; cbn [snd]; [exact H|].
  rewrite length_app, Nat.add_1_r, seq_S, !map_app, H. cbn [map List.length].
  rewrite Hid. do 2 f_equal. lia.
Qed.

(** X15.  Whatever requests the server has answered, the stored bets carry
    the identifiers 1, 2, 3, ... in the order of their arrival: no
    identifier is used twice, and every identifier lies between 1 and the
    count that [GET /bets] reports. *)
Theorem bet_ids_sequential (bets : list Bet.t) :
  reachable bets ->
  map Bet.id bets = map Z.of_nat (seq 1 (List.length bets))
  /\ NoDup (map Bet.id bets)
  /\ (forall bet, In bet bets ->
                  (1 <= Bet.id bet <= fst (get_bets bets))%Z).
Proof.
  intros Hr.
  assert (H : map Bet.id bets = map Z.of_nat (seq 1 (List.length bets))).
  { induction Hr as [|now body bets Hr IH]; [reflexivity|].
    now apply ids_after_post. }
  split; [exact H|]. split.
  - rewrite H. apply Finite.Injective_map_NoDup.
    + intros x y. apply Nat2Z.inj.
    + apply seq_NoDup.
  - intros bet Hin. cbn [get_bets fst].
    assert (Hi : In (Bet.id bet) (map Bet.id bets)) by now apply in_map.
    rewrite H in Hi. apply in_map_iff in Hi.
    destruct Hi as (k & Hk & Hs). apply in_seq in Hs. lia.
Qed.

Lemma bet_ids_sequential_witness :
  let body := {| BetBody.user := JStr "ann";
                 BetBody.match_id := JStr "qm1";
                 BetBody.alliance := JStr "red";
                 BetBody.amount := JNum (Fin 5);
                 BetBody.type := JStr "over";
                 BetBody.line := JUndefined |} in
  let bets := snd (post_bet "t2" body (snd (post_bet "t1" body []))) in
  reachable bets /\ map Bet.id bets = [1%Z; 2%Z].
Proof.
  cbv zeta.
  assert (R : reachable
                (snd (post_bet "t2"
                        {| BetBody.user := JStr "ann";
                           BetBody.match_id := JStr "qm1";
                           BetBody.alliance := JStr "red";
                           BetBody.amount := JNum (Fin 5);
                           BetBody.type := JStr "over";
                           BetBody.line := JUndefined |}
                        (snd (post_bet "t1"
                                {| BetBody.user := JStr "ann";
                                   BetBody.match_id := JStr "qm1";
                                   BetBody.alliance := JStr "red";
                                   BetBody.amount := JNum (Fin 5);
                                   BetBody.type := JStr "over";
                                   BetBody.line := JUndefined |} []))))).
  { apply reachable_post, reachable_post, reachable_start. }
  split; [exact R|].
  exact (proj1 (bet_ids_sequential _ R)).
Defined.

(** X16.  No sequence of [POST /bet] requests removes, reorders or changes
    a stored bet: after the requests the array is the old one followed by
    the bets added, at most one for each request. *)
Theorem bets_append_only
  (requests : list (string * BetBody.t)) (bets : list Bet.t) :
  exists added,
    fold_left (fun bs req => snd (post_bet (fst req) (snd req) bs))
              requests bets
    = (bets ++ added)%list
    /\ (List.length added <= List.length requests)%nat.
Proof.
  revert bets. induction requests as [|[now body] requests IH]; intros bets.
  - exists []. cbn. split; [now rewrite app_nil_r | lia].
  - cbn [fold_left fst snd].
    destruct (post_bet_cases now body bets) as [E | (bet & E & _)];
      rewrite E; cbn [snd].
    + destruct (IH bets) as (added & Ha & Hl).
      exists added. split; [exact Ha|]. cbn [List.length]. lia.
    + destruct (IH (bets ++ [bet])%list) as (added & Ha & Hl).
      exists (bet :: added). split.
      * rewrite Ha, <- app_assoc. reflexivity.
      * cbn [List.length]. lia.
Qed.

(** X17.  [POST /bet] only tests five properties for truthiness.  An
    [amount] of 0 is refused as a missing field and the store is left as
    it was, whatever the other properties; with truthy [user], [match_id],
    [alliance] and [type], any other numeric amount, a negative one
    included, is accepted and stored with the next identifier, without a
    [line] being required and without [alliance] or [type] being compared
    with the values the API documents. *)
Theorem post_bet_validation
  (now : string) (user match_id alliance type line : jsval) (q : Q)
  (bets : list Bet.t) :
  truthy user = true -> truthy match_id = true ->
  truthy alliance = true -> truthy type = true ->
  post_bet now (BetBody.mk user match_id alliance (JNum (Fin 0)) type line)
           bets
  = (Bet400 "missing fields", bets)
  /\ (~ q == 0 ->
      post_bet now
               (BetBody.mk user match_id alliance (JNum (Fin q)) type line)
               bets
      = (BetOk (Bet.mk (Z.of_nat (List.length bets) + 1) user match_id
                       alliance (JNum (Fin q)) type line now),
         (bets ++ [Bet.mk (Z.of_nat (List.length bets) + 1) user match_id
                          alliance (JNum (Fin q)) type line now])%list)).
Proof.
  intros Hu Hm Ha Ht. unfold post_bet.
  cbn [BetBody.user BetBody.match_id BetBody.alliance BetBody.amount
       BetBody.type BetBody.line].
  rewrite Hu, Hm, Ha, Ht. cbn [negb orb truthy Num.falsy].
  split.
  - reflexivity.
  - intros Hq. rewrite (Qeq_bool_false _ _ Hq). reflexivity.
Qed.

Lemma post_bet_validation_witness :
  (truthy (JStr "ann") = true /\ truthy (JStr "qm1") = true
   /\ truthy (JStr "green") = true /\ truthy (JStr "sideways") = true)
  /\ post_bet "t1"
       (BetBody.mk (JStr "ann") (JStr "qm1") (JStr "green")
                   (JNum (Fin 0)) (JStr "sideways") JUndefined) []
     = (Bet400 "missing fields", []).
Proof.
  split; [repeat split|].
  apply (post_bet_validation "t1" (JStr "ann") (JStr "qm1") (JStr "green")
           (JStr "sideways") JUndefined (- 20) []); reflexivity.
Defined.

(** ** The simulated matches *)

(** Rounding keeps a number between two integers that bound it. *)
Lemma round_between (a : Q) (lo hi : Z) :
  inject_Z lo <= a <= inject_Z hi ->
  inject_Z lo <= inject_Z (Num.round a) <= inject_Z hi.
Proof.
  intros [Hl Hh]. rewrite <- !Zle_Qle. split.
  - apply Z.le_trans with (Num.round (inject_Z lo));
      [rewrite round_Z; lia | now apply round_mono].
  - apply Z.le_trans with (Num.round (inject_Z hi));
      [now apply round_mono | rewrite round_Z; lia].
Qed.

(** The fields of a random team, for three draws in [0, 1). *)
Lemma randTeam_ranges (idx : Z) (u1 u2 u3 : Q) :
  0 <= u1 < 1 -> 0 <= u2 < 1 -> 0 <= u3 < 1 ->
  let t := randTeam idx (Fin u1) (Fin u2) (Fin u3) in
  exists (k : Z) (e p : Q),
    (rank t =~ Fin (inject_Z k))%js /\ (1 <= k <= 8)%Z
    /\ epa t = Fin e /\ - 10 <= e <= 50
    /\ win_prob t = Fin p /\ 0 <= p <= 1.
Proof.
  intros [H1 H1'] [H2 H2'] [H3 H3']. cbv zeta. unfold randTeam.
  cbn [rank epa win_prob Num.mul Num.Math_floor Num.Math_round
       Num.sub Num.neg Num.add].
  rewrite !div_Fin by Qconst_neq.
  exists (Qfloor (u1 * 8) + 1)%Z. do 2 eexists.
  split; [cbn [Num.same]; rewrite inject_Z_plus; reflexivity|].
  split.
  { assert (A : (0 <= Qfloor (u1 * 8))%Z).
    { rewrite <- (Qfloor_Z 0). apply Qfloor_resp_le.
      change (inject_Z 0) with 0. lra. }
    assert (B : (Qfloor (u1 * 8) < 8)%Z).
    { rewrite Zlt_Qlt. pose proof (Qfloor_le (u1 * 8)).
      change (inject_Z 8) with 8. lra. }
    lia. }
  split; [reflexivity|]. split.
  { match goal with
    | |- context [Num.round ?a] =>
        destruct (round_between a (-100) 500) as [A B];
        [ change (inject_Z (-100)) with (-100);
          change (inject_Z 500) with 500; split; lra
        | set (z := inject_Z (Num.round a)) in * ]
    end.
    change (inject_Z (-100)) with (-100) in A.
    change (inject_Z 500) with 500 in B.
    split; [apply Qle_shift_div_l | apply Qle_shift_div_r]; lra. }
  split; [reflexivity|].
  match goal with
  | |- context [Num.round ?a] =>
      destruct (round_between a 0 100) as [A B];
      [ change (inject_Z 0) with 0;
        change (inject_Z 100) with 100; split; lra
      | set (z := inject_Z (Num.round a)) in * ]
  end.
  change (inject_Z 0) with 0 in A. change (inject_Z 100) with 100 in B.
  split; [apply Qle_shift_div_l | apply Qle_shift_div_r]; lra.
Qed.

Lemma randTeam_numeric (idx : Z) (u1 u2 u3 : Q) :
  0 <= u1 < 1 -> 0 <= u2 < 1 -> 0 <= u3 < 1 ->
  numeric_team (randTeam idx (Fin u1) (Fin u2) (Fin u3)).
Proof.
  intros H1 H2 H3.
  destruct (randTeam_ranges idx u1 u2 u3 H1 H2 H3)
    as (k & e & p & _ & _ & He & _ & Hp & Hp0 & _).
  cbv zeta in He, Hp. unfold numeric_team. rewrite He, Hp.
  unfold EPS. lra.
Qed.

(** X18.  For three draws of [Math.random()], which lie in [0, 1),
    [randTeam] builds a team whose rank is one of the integers 1 to 8, so
    that its multiplier is a listed one, whose [epa] lies between -10 and
    50 and whose [win_prob] lies between 0 and 1; every field of its
    computed value is then finite. *)
Theorem randTeam_in_range (idx : Z) (u1 u2 u3 : Q) :
  0 <= u1 < 1 -> 0 <= u2 < 1 -> 0 <= u3 < 1 ->
  let t := randTeam idx (Fin u1) (Fin u2) (Fin u3) in
  (exists (k : Z) (e p : Q),
      (rank t =~ Fin (inject_Z k))%js /\ (1 <= k <= 8)%Z
      /\ epa t = Fin e /\ - 10 <= e <= 50
      /\ win_prob t = Fin p /\ 0 <= p <= 1)
  /\ (exists m, getRankMultiplier (rank t) = Fin m /\ 1 < m)
  /\ all_finite (computeTeamValue t) = true.
Proof.
  intros H1 H2 H3. cbv zeta.
  pose proof (randTeam_ranges idx u1 u2 u3 H1 H2 H3) as R.
  cbv zeta in R. split; [exact R|].
  destruct R as (k & e & p & Hk & Hk8 & He & _ & Hp & Hp0 & _).
  split.
  - destruct (getRankMultiplier_cases
                (rank (randTeam idx (Fin u1) (Fin u2) (Fin u3))))
      as [(j & m & _ & _ & Hm & Hm1) | [Hno _]].
    + exists m. split; assumption.
    + exfalso. exact (Hno k Hk8 Hk).
  - remember (randTeam idx (Fin u1) (Fin u2) (Fin u3)) as t eqn:Et.
    destruct t as [key r e' p']. cbn [epa win_prob] in He, Hp. subst e' p'.
    destruct (getRankMultiplier_range r) as [m [Hm _]].
    rewrite (computeTeamValue_regular key r e p m Hm); [reflexivity|].
    unfold EPS. lra.
Qed.

Lemma randTeam_in_range_witness :
  (0 <= 0.999 < 1 /\ 0 <= 0 < 1 /\ 0 <= 0.5 < 1)
  /\ all_finite
       (computeTeamValue (randTeam 7 (Fin 0.999) (Fin 0) (Fin 0.5)))
     = true.
Proof.
  assert (H : 0 <= 0.999 < 1 /\ 0 <= 0 < 1 /\ 0 <= 0.5 < 1).
  { repeat split; unfold Qle, Qlt; simpl; lia. }
  split; [exact H|].
  apply (randTeam_in_range 7 0.999 0 0.5); apply H.
Defined.

(** X19.  The number of simulated matches is [n] when [n] is a positive
    integer and none when it is negative, but ten when [n] is absent and
    also when it is 0, which [||] takes for absent. *)
Theorem post_simulate_count (random : nat -> Q) :
  List.length (post_simulate None random) = 10%nat
  /\ List.length (post_simulate (Some 0%Z) random) = 10%nat
  /\ (forall z, (- 10 ^ 21 < z < 0)%Z ->
                List.length (post_simulate (Some z) random) = 0%nat)
  /\ (forall z, (0 < z < 10 ^ 21)%Z ->
                List.length (post_simulate (Some z) random) = Z.to_nat z).
Proof.
  unfold post_simulate. repeat split.
  - intros z Hz. rewrite length_map, length_seq. cbn [simulate_count].
    destruct (Z.eqb_spec z 0); lia.
  - intros z Hz. rewrite length_map, length_seq. cbn [simulate_count].
    destruct (Z.eqb_spec z 0); lia.
Qed.

(** X20.  Team keys are not unique across simulated matches: the blue
    teams of the iteration [i] are given the indices [3i + 3], [3i + 4],
    [3i + 5], which are the indices of the red teams of the iteration
    [i + 1], so the two alliances carry the same three keys. *)
Theorem simulate_keys_overlap (random : nat -> Q) (i : nat) :
  map (fun t => team_key (team t))
      (teams (SimResult.blue (sim_iteration random i)))
  = map (fun t => team_key (team t))
        (teams (SimResult.red (sim_iteration random (S i)))).
Proof.
  unfold sim_iteration, sim_blueTeams, sim_redTeams, sim_team,
    computeAllianceValue.
  cbn [SimResult.blue SimResult.red teams map team team_key randTeam].
  assert (E : (Z.of_nat (S i) * 3 = Z.of_nat i * 3 + 3)%Z) by lia.
  rewrite E.
  replace (Z.of_nat i * 3 + 3 + 1)%Z with (Z.of_nat i * 3 + 4)%Z by lia.
  replace (Z.of_nat i * 3 + 3 + 2)%Z with (Z.of_nat i * 3 + 5)%Z by lia.
  reflexivity.
Qed.

(** X21.  When every draw lies in [0, 1), each simulated match has two
    alliances of three teams whose values are numbers of at least 3, lines
    that are finite numbers, and payout multipliers between 1.01 and
    1.5. *)
Theorem post_simulate_results
  (n : option Z) (random : nat -> Q) (res : SimResult.t) :
  (forall k, 0 <= random k < 1) ->
  In res (post_simulate n random) ->
  exists vr vb bl ml lr lb pr pb : Q,
    allianceValue (SimResult.red res) = Fin vr /\ 3 <= vr
    /\ allianceValue (SimResult.blue res) = Fin vb /\ 3 <= vb
    /\ Suggestion.baseLine (SimResult.suggestion res) = Fin bl
    /\ Suggestion.matchLine (SimResult.suggestion res) = Fin ml
    /\ Side.line (PerAlliance.red
                    (Suggestion.perAlliance (SimResult.suggestion res)))
       = Fin lr
    /\ Side.line (PerAlliance.blue
                    (Suggestion.perAlliance (SimResult.suggestion res)))
       = Fin lb
    /\ Side.payoutMultiplier
         (PerAlliance.red
            (Suggestion.perAlliance (SimResult.suggestion res)))
       = Fin pr
    /\ Side.payoutMultiplier
         (PerAlliance.blue
            (Suggestion.perAlliance (SimResult.suggestion res)))
       = Fin pb
    /\ 1.01 <= pr <= 1.5 /\ 1.01 <= pb <= 1.5.
Proof.
  intros Hrand Hin. unfold post_simulate in Hin.
  apply in_map_iff in Hin. destruct Hin as (i & <- & _).
  assert (Hr : Forall numeric_team (sim_redTeams random i)).
  { unfold sim_redTeams, sim_team.
    repeat constructor; apply randTeam_numeric; apply Hrand. }
  assert (Hb : Forall numeric_team (sim_blueTeams random i)).
  { unfold sim_blueTeams, sim_team.
    repeat constructor; apply randTeam_numeric; apply Hrand. }
  destruct (computeAllianceValue_numeric _ Hr) as (vr & er & Hvr & _ & Hcr).
  destruct (computeAllianceValue_numeric _ Hb) as (vb & eb & Hvb & _ & Hcb).
  destruct (pipeline_numeric _ _ Hr Hb)
    as (bl & ml & lr & lb & pr & pb & H).
  cbv zeta in H.
  exists vr, vb, bl, ml, lr, lb, pr, pb.
  unfold sim_iteration.
  cbn [SimResult.red SimResult.blue SimResult.suggestion].
  split; [exact Hvr|]. split; [exact Hcr|].
  split; [exact Hvb|]. split; [exact Hcb|]. exact H.
Qed.

Lemma post_simulate_results_witness :
  let random := fun _ : nat => 0.5 in
  (forall k, 0 <= random k < 1)
  /\ exists res, In res (post_simulate (Some 1%Z) random)
                 /\ exists vr, allianceValue (SimResult.red res) = Fin vr
                               /\ 3 <= vr.
Proof.
  cbv zeta.
  assert (Hrand : forall k : nat, 0 <= (fun _ : nat => 0.5) k < 1).
  { intros k. split; unfold Qle, Qlt; simpl; lia. }
  split; [exact Hrand|].
  exists (sim_iteration (fun _ : nat => 0.5) 0).
  assert (Hin : In (sim_iteration (fun _ : nat => 0.5) 0)
                   (post_simulate (Some 1%Z) (fun _ : nat => 0.5))).
  { left. reflexivity. }
  split; [exact Hin|].
  destruct (post_simulate_results (Some 1%Z) (fun _ : nat => 0.5) _
              Hrand Hin) as (vr & _ & _ & _ & _ & _ & _ & _ & Hv & H3 & _).
  exists vr. split; assumption.
Defined.
